(** * Notion page extractor: the TOON converter

    A shallow embedding of [src/lib/toon-converter.js] and of the two helpers
    it imports from [src/lib/notion-api.js] ([richTextToPlain] and
    [extractPropertyValue]), with the properties the specification states
    about them.

    Conventions of the embedding.
    - A JavaScript string is a [string]; the only character the converter
      ever looks for is the line feed, so the encoding of the other
      characters is immaterial.
    - A field that the source reads through [?.], through [||] or through a
      truthiness test is an [option]: [None] stands for a missing field, for
      [undefined] and for [null], which those three constructs do not
      distinguish.  A field whose raw value is handed on is a [Nullable],
      which keeps [undefined] and [null] apart.
    - An array is a [list]; the entries of an object in [Object.entries]
      order are an association list.
    - The local arrays named [lines] that every function of the source
      fills with [push] are the lists the functions return.
    - [convertBlocks], [convertBlock] and [formatListItems] call each other
      along the block tree.  They are defined with fuel; enough fuel always
      gives the result, and the equations of the source are then proved
      without fuel ([convertBlocks_list], [convertBlocks_table],
      [convertBlocks_regular], [convertBlock_returns]). *)

From Stdlib Require Import String Ascii List Arith Bool Lia DecimalString.
Import ListNotations.
Open Scope list_scope.
Open Scope string_scope.

Set Warnings "-register-all".

(** ** JavaScript strings *)

Module JsString.

(** The line feed, written ['\n'] in the source. *)
Definition newline : ascii := "010"%char.

Definition LF : string := String newline EmptyString.

(** [!value] on a string: only the empty string is falsy. *)
Definition truthy (s : string) : bool :=
  match s with
  | EmptyString => false
  | String _ _ => true
  end.

(** [value.includes('\n')]. *)
Fixpoint includes_newline (s : string) : bool :=
  match s with
  | EmptyString => false
  | String c rest => if Ascii.eqb c newline then true else includes_newline rest
  end.

(** [value.split('\n')]: the pieces between line feeds, never an empty
    array (the empty string splits into one empty piece). *)
Fixpoint split_newline (s : string) : list string :=
  match s with
  | EmptyString => [EmptyString]
  | String c rest =>
      if Ascii.eqb c newline then EmptyString :: split_newline rest
      else match split_newline rest with
           | piece :: pieces => String c piece :: pieces
           | [] => [String c EmptyString]
           end
  end.

(** [array.join(sep)] on an array of strings. *)
Definition join (sep : string) (pieces : list string) : string :=
  String.concat sep pieces.

(** [s.repeat(n)], as in ['  '.repeat(indent)]. *)
Fixpoint repeatStr (s : string) (n : nat) : string :=
  match n with
  | O => EmptyString
  | S k => s ++ repeatStr s k
  end.

(** The text of a non-negative integer inside a template literal, as in
    [`[${items.length}]`]. *)
Definition of_nat (n : nat) : string :=
  NilEmpty.string_of_uint (Nat.to_uint n).

(** A string has a line feed somewhere: the notion the specification
    uses, stated without reference to the code's own test. *)
Definition contains_newline (s : string) : Prop :=
  exists before after, s = before ++ String newline after.

End JsString.

Import JsString.

(** ** Value escaping ([escapeValue], toon-converter.js) *)

Definition escapeValue (value : string) : string :=
  if negb (truthy value) then ""
  else if includes_newline value then
    let firstLine := hd "" (split_newline value) in
    firstLine ++ "..."
  else value.


(** ** JavaScript values

    [Nullable A] is a field that holds an [A], [null] or [undefined] and
    whose raw value the source hands on.  [JsValue] is what
    [extractPropertyValue] can return over the data model: a primitive or an
    array of such values. *)

Inductive Nullable (A : Type) : Type :=
| JsUndefined : Nullable A
| JsNull : Nullable A
| JsDefined : A -> Nullable A.

Arguments JsUndefined {A}.
Arguments JsNull {A}.
Arguments JsDefined {A} _.

(** The converter performs no arithmetic on the numbers of a page: it only
    prints them.  A number is carried by its canonical decimal text, the
    string that [String(n)] yields. *)
Record JsNumber := { number_text : string }.

Inductive JsValue : Type :=
| VUndefined
| VNull
| VBoolean (b : bool)
| VNumber (n : JsNumber)
| VString (s : string)
| VArray (items : list JsValue).

(** The raw value of a field. *)
Definition raw {A : Type} (inject : A -> JsValue) (field : Nullable A) : JsValue :=
  match field with
  | JsUndefined => VUndefined
  | JsNull => VNull
  | JsDefined a => inject a
  end.

(** Truthiness: [undefined], [null], [false], [0], [NaN] and [''] are falsy. *)
Definition truthyValue (v : JsValue) : bool :=
  match v with
  | VUndefined | VNull => false
  | VBoolean b => b
  | VNumber n => negb (String.eqb (number_text n) "0" || String.eqb (number_text n) "NaN")
  | VString s => truthy s
  | VArray _ => true
  end.

(** [a || b]. *)
Definition jsOr (a b : JsValue) : JsValue :=
  if truthyValue a then a else b.

(** [String(v)], which is also the text of [${v}] in a template literal.
    An array prints its elements separated by commas, [null] and
    [undefined] elements as nothing. *)
Fixpoint toText (v : JsValue) : string :=
  match v with
  | VUndefined => "undefined"
  | VNull => "null"
  | VBoolean b => if b then "true" else "false"
  | VNumber n => number_text n
  | VString s => s
  | VArray items =>
      join "," (map (fun item => match item with
                                 | VUndefined | VNull => ""
                                 | _ => toText item
                                 end) items)
  end.

(** Optional chaining [o?.f] on a field that is only ever chained or
    tested, and [o?.f] where [f] is handed on raw. *)
Definition chain {A B : Type} (o : option A) (f : A -> option B) : option B :=
  match o with
  | Some a => f a
  | None => None
  end.

Definition chainRaw {A : Type} (o : option A) (f : A -> JsValue) : JsValue :=
  match o with
  | Some a => f a
  | None => VUndefined
  end.

Notation "o ?. f" := (chain o f) (at level 25, left associativity).

(** [field || fallback] where the field, when present, is a string. *)
Definition orDefault (field : option string) (fallback : string) : string :=
  match field with
  | Some s => if truthy s then s else fallback
  | None => fallback
  end.

(** A flag in a condition: [flag ? a : b], [if (flag)]. *)
Definition isTrue (flag : option bool) : bool :=
  match flag with
  | Some b => b
  | None => false
  end.

(** ** The data model: rich text, properties, pages *)

Record RichTextItem := { plain_text : option string }.

Definition RichText := list RichTextItem.

Record SelectOption := { option_name : Nullable string }.

Record User := { user_name : Nullable string; user_id : Nullable string }.

Record DateValue := { date_start : Nullable string; date_end : Nullable string }.

Record UrlRef := { ref_url : Nullable string }.

Record FileEntry := {
  entry_name : Nullable string;
  entry_external : option UrlRef;
  entry_file : option UrlRef
}.

Record PageRef := { ref_id : Nullable string }.

Record UniqueId := { uid_prefix : Nullable string; uid_number : Nullable JsNumber }.

Inductive Formula : Type :=
| FString (value : Nullable string)
| FNumber (value : Nullable JsNumber)
| FBoolean (value : Nullable bool)
| FDate (date : option DateValue)
| FOther (kind : string).

(** A property is tagged by its [type]; each constructor carries what the
    object holds under the key of the same name.  [POther kind] is a
    property whose type is none of the names above it. *)
Inductive Property : Type :=
| PTitle (title : option RichText)
| PRichText (rich_text : option RichText)
| PNumber (number : Nullable JsNumber)
| PSelect (select : option SelectOption)
| PMultiSelect (multi_select : option (list SelectOption))
| PStatus (status : option SelectOption)
| PDate (date : option DateValue)
| PPeople (people : option (list User))
| PFiles (files : option (list FileEntry))
| PCheckbox (checkbox : Nullable bool)
| PUrl (url : Nullable string)
| PEmail (email : Nullable string)
| PPhoneNumber (phone_number : Nullable string)
| PFormula (formula : option Formula)
| PRelation (relation : option (list PageRef))
| PRollup (rollup : option Rollup)
| PCreatedTime (created_time : Nullable string)
| PCreatedBy (created_by : option User)
| PLastEditedTime (last_edited_time : Nullable string)
| PLastEditedBy (last_edited_by : option User)
| PUniqueId (unique_id : option UniqueId)
| POther (kind : string)
with Rollup : Type :=
| RNumber (number : Nullable JsNumber)
| RDate (date : option DateValue)
| RArray (array : option (list Property))
| ROther (kind : string).

Definition prop_type (prop : Property) : string :=
  match prop with
  | PTitle _ => "title"
  | PRichText _ => "rich_text"
  | PNumber _ => "number"
  | PSelect _ => "select"
  | PMultiSelect _ => "multi_select"
  | PStatus _ => "status"
  | PDate _ => "date"
  | PPeople _ => "people"
  | PFiles _ => "files"
  | PCheckbox _ => "checkbox"
  | PUrl _ => "url"
  | PEmail _ => "email"
  | PPhoneNumber _ => "phone_number"
  | PFormula _ => "formula"
  | PRelation _ => "relation"
  | PRollup _ => "rollup"
  | PCreatedTime _ => "created_time"
  | PCreatedBy _ => "created_by"
  | PLastEditedTime _ => "last_edited_time"
  | PLastEditedBy _ => "last_edited_by"
  | PUniqueId _ => "unique_id"
  | POther kind => kind
  end.

(** [prop.title]. *)
Definition prop_title (prop : Property) : option RichText :=
  match prop with
  | PTitle title => title
  | _ => None
  end.

Record Page := {
  id : string;
  created_time : string;
  last_edited_time : string;
  properties : option (list (string * Property))
}.

(** ** The data model: blocks

    A block object holds its kind-specific fields under the key named by
    its [type] ([block.paragraph], [block.to_do], ...); [payload] is that
    object and [payload_at block key] reads [block[key]]. *)

Record FileRef := { file_url : option string }.

Record Icon := { emoji : option string }.

Record Payload := {
  rich_text : option RichText;
  checked : option bool;
  language : option string;
  icon : option Icon;
  file : option FileRef;
  external : option FileRef;
  caption : option RichText;
  name : option string;
  url : option string;
  expression : option string;
  title : option string;
  page_id : option string;
  database_id : option string;
  has_column_header : option bool;
  cells : option (list RichText)
}.

Inductive Block : Type := mkBlock {
  type : string;
  payload : option Payload;
  children : option (list Block)
}.

Definition payload_at (block : Block) (key : string) : option Payload :=
  if String.eqb (type block) key then payload block else None.

(** The number of blocks of a forest. *)
Fixpoint block_weight (block : Block) : nat :=
  match block with
  | mkBlock _ _ nested =>
      S (match nested with
         | Some blocks => list_sum (map block_weight blocks)
         | None => 0
         end)
  end.

Definition blocks_weight (blocks : list Block) : nat :=
  list_sum (map block_weight blocks).

(** The block lists a call on [block] may recurse into: its children, and
    the children of its children (the columns of a [column_list]). *)
Definition nested_in (block : Block) (blocks : list Block) : Prop :=
  children block = Some blocks \/
  exists columns col,
    children block = Some columns /\ In col columns /\ children col = Some blocks.

(** ** notion-api.js: [richTextToPlain], [extractPropertyValue] *)

Definition richTextToPlain (richTextArray : option RichText) : string :=
  match richTextArray with
  | None => ""
  | Some items => join "" (map (fun rt => orDefault (plain_text rt) "") items)
  end.

Definition extractFormulaValue (formula : option Formula) : JsValue :=
  match formula with
  | None => VNull
  | Some (FString value) => raw VString value
  | Some (FNumber value) => raw VNumber value
  | Some (FBoolean value) => raw VBoolean value
  | Some (FDate date) => chainRaw date (fun d => raw VString (date_start d))
  | Some (FOther _) => VNull
  end.

(** [u.name || u.id]. *)
Definition userLabel (u : User) : JsValue :=
  jsOr (raw VString (user_name u)) (raw VString (user_id u)).

Fixpoint extractPropertyValue (property : Property) : JsValue :=
  match property with
  | PTitle title => VString (richTextToPlain title)
  | PRichText rich_text => VString (richTextToPlain rich_text)
  | PNumber number => raw VNumber number
  | PSelect select =>
      jsOr (chainRaw select (fun s => raw VString (option_name s))) VNull
  | PMultiSelect multi_select =>
      jsOr (chainRaw multi_select
              (fun l => VArray (map (fun s => raw VString (option_name s)) l)))
           (VArray [])
  | PStatus status =>
      jsOr (chainRaw status (fun s => raw VString (option_name s))) VNull
  | PDate date =>
      match date with
      | None => VNull
      | Some d =>
          if truthyValue (raw VString (date_end d)) then
            VString (toText (raw VString (date_start d)) ++ " → "
                     ++ toText (raw VString (date_end d)))
          else raw VString (date_start d)
      end
  | PPeople people =>
      jsOr (chainRaw people (fun l => VArray (map userLabel l))) (VArray [])
  | PFiles files =>
      jsOr (chainRaw files
              (fun l => VArray (map (fun f =>
                 jsOr (jsOr (raw VString (entry_name f))
                            (chainRaw (entry_external f) (fun r => raw VString (ref_url r))))
                      (chainRaw (entry_file f) (fun r => raw VString (ref_url r)))) l)))
           (VArray [])
  | PCheckbox checkbox => raw VBoolean checkbox
  | PUrl url => raw VString url
  | PEmail email => raw VString email
  | PPhoneNumber phone_number => raw VString phone_number
  | PFormula formula => extractFormulaValue formula
  | PRelation relation =>
      jsOr (chainRaw relation (fun l => VArray (map (fun r => raw VString (ref_id r)) l)))
           (VArray [])
  | PRollup rollup =>
      match rollup with
      | None => VNull
      | Some r => extractRollupCase r
      end
  | PCreatedTime created_time => raw VString created_time
  | PCreatedBy created_by =>
      jsOr (chainRaw created_by (fun u => raw VString (user_name u)))
           (chainRaw created_by (fun u => raw VString (user_id u)))
  | PLastEditedTime last_edited_time => raw VString last_edited_time
  | PLastEditedBy last_edited_by =>
      jsOr (chainRaw last_edited_by (fun u => raw VString (user_name u)))
           (chainRaw last_edited_by (fun u => raw VString (user_id u)))
  | PUniqueId unique_id =>
      match unique_id with
      | Some u =>
          let prefix := toText (jsOr (raw VString (uid_prefix u)) (VString "")) in
          if truthy prefix then
            VString (prefix ++ "-" ++ toText (raw VNumber (uid_number u)))
          else raw VNumber (uid_number u)
      | None => VNull
      end
  | POther _ => VNull
  end
with extractRollupCase (rollup : Rollup) : JsValue :=
  match rollup with
  | RNumber number => raw VNumber number
  | RDate date => chainRaw date (fun d => raw VString (date_start d))
  | RArray array =>
      chainRaw array (fun l => VArray (map extractPropertyValue l))
  | ROther _ => VNull
  end.

(** [extractRollupValue]: the guard [if (!rollup) return null] and then the
    switch on [rollup.type], which is [extractRollupCase]. *)
Definition extractRollupValue (rollup : option Rollup) : JsValue :=
  match rollup with
  | None => VNull
  | Some r => extractRollupCase r
  end.

(** ** toon-converter.js: title and properties *)

(** [for (const [, prop] of Object.entries(page.properties))]: the first
    property of type [title] decides. *)
Fixpoint findTitle (entries : list (string * Property)) : option string :=
  match entries with
  | [] => None
  | (_, prop) :: rest =>
      if String.eqb (prop_type prop) "title" then Some (richTextToPlain (prop_title prop))
      else findTitle rest
  end.

(** [extractTitle]: a string, or [None] for [null]. *)
Definition extractTitle (page : Page) : option string :=
  match properties page with
  | None => None
  | Some entries => findTitle entries
  end.

Definition formatPropertyValue (value : JsValue) : string :=
  match value with
  | VArray items =>
      if Nat.eqb (length items) 0 then "[]"
      else "[" ++ join ", " (map (fun v => escapeValue (toText v)) items) ++ "]"
  | VBoolean b => if b then "true" else "false"
  | VNumber n => toText (VNumber n)
  | _ => escapeValue (toText value)
  end.

(** [value === null || value === undefined || value === '']. *)
Definition isBlankValue (value : JsValue) : bool :=
  match value with
  | VNull | VUndefined => true
  | VString s => String.eqb s ""
  | _ => false
  end.

(** The lines one property contributes to [convertProperties]. *)
Definition propertyLine (entry : string * Property) : list string :=
  let '(name, prop) := entry in
  if String.eqb (prop_type prop) "title" then []
  else
    let value := extractPropertyValue prop in
    if isBlankValue value then []
    else
      let formattedValue := formatPropertyValue value in
      [name ++ ": " ++ formattedValue].

Definition convertProperties (properties : option (list (string * Property))) : list string :=
  match properties with
  | None => []
  | Some entries => flat_map propertyLine entries
  end.

(** ** toon-converter.js: blocks *)

Definition isListItem (block : Block) : bool :=
  existsb (String.eqb (type block)) ["bulleted_list_item"; "numbered_list_item"; "to_do"].

(** [collectListItems(blocks, startIndex)].  The loop index of
    [convertBlocks] is carried as the remaining blocks [blocks[i..]], so the
    run starts at the head of the list. *)
Fixpoint collectSameType (startType : string) (blocks : list Block) : list Block :=
  match blocks with
  | [] => []
  | block :: rest =>
      if negb (String.eqb (type block) startType) then []
      else block :: collectSameType startType rest
  end.

Definition collectListItems (blocks : list Block) : list Block :=
  match blocks with
  | [] => []
  | first :: _ => collectSameType (type first) blocks
  end.

(** [row.table_row?.cells?.map(cell => richTextToPlain(cell)) || []]. *)
Definition rowCells (row : Block) : list string :=
  match payload_at row "table_row" ?. cells with
  | Some cellList => map (fun cell => richTextToPlain (Some cell)) cellList
  | None => []
  end.

Definition formatTable (block : Block) (indentStr : string) : list string :=
  match children block with
  | None | Some [] => [indentStr ++ "table[0]:"]
  | Some ((headerRow :: others) as rows) =>
      let hasHeader := isTrue (payload_at block "table" ?. has_column_header) in
      let headers := if hasHeader then rowCells headerRow else [] in
      let dataRows := if hasHeader then others else rows in
      let headerLine :=
        if Nat.ltb 0 (length headers) then
          let headerStr := join "," (map escapeValue headers) in
          indentStr ++ "table[" ++ of_nat (length dataRows) ++ "]{" ++ headerStr ++ "}:"
        else indentStr ++ "table[" ++ of_nat (length dataRows) ++ "]:" in
      headerLine ::
      map (fun row =>
             let rowStr := join "," (map escapeValue (rowCells row)) in
             indentStr ++ "  " ++ rowStr) dataRows
  end.

(** The recursive functions return [None] when the fuel is exhausted; a
    small option monad threads that through the calls. *)
Notation "x <- e ;; k" :=
  (match e with Some x => k | None => None end)
  (at level 61, e at next level, right associativity).

Fixpoint concatAll (results : list (option (list string))) : option (list string) :=
  match results with
  | [] => Some []
  | r :: rest =>
      lines <- r ;;
      more <- concatAll rest ;;
      Some (lines ++ more)%list
  end.

Section OpenRecursion.

(** [convertBlock], [formatListItems] and [convertBlocks] call each other;
    the first two are written against the function they call back. *)
Variable convertBlocks : list Block -> nat -> option (list string).

(** [if (block.children) lines.push(...convertBlocks(block.children, depth))]. *)
Definition childLines (block : Block) (depth : nat) : option (list string) :=
  match children block with
  | Some blocks => convertBlocks blocks depth
  | None => Some []
  end.

(** [if (text) lines.push(line)]. *)
Definition pushIf (text : string) (line : string) : list string :=
  if truthy text then [line] else [].

(** A case of the shape "push the line when the text is not empty, then
    the children one level deeper". *)
Definition textThenChildren (block : Block) (indent : nat) (text line : string)
  : option (list string) :=
  nested <- childLines block (indent + 1) ;;
  Some (pushIf text line ++ nested)%list.

Definition convertBlock_with (block : Block) (indent : nat) : option (list string) :=
  let indentStr := repeatStr "  " indent in
  let kind := type block in
  let kindIs := String.eqb kind in
  if kindIs "paragraph" then
    let text := richTextToPlain (payload_at block "paragraph" ?. rich_text) in
    Some (pushIf text (indentStr ++ "p: " ++ escapeValue text))
  else if kindIs "heading_1" then
    let text := richTextToPlain (payload_at block "heading_1" ?. rich_text) in
    textThenChildren block indent text (indentStr ++ "h1: " ++ escapeValue text)
  else if kindIs "heading_2" then
    let text := richTextToPlain (payload_at block "heading_2" ?. rich_text) in
    textThenChildren block indent text (indentStr ++ "h2: " ++ escapeValue text)
  else if kindIs "heading_3" then
    let text := richTextToPlain (payload_at block "heading_3" ?. rich_text) in
    textThenChildren block indent text (indentStr ++ "h3: " ++ escapeValue text)
  else if kindIs "bulleted_list_item" then
    let text := richTextToPlain (payload_at block "bulleted_list_item" ?. rich_text) in
    textThenChildren block indent text (indentStr ++ "- " ++ escapeValue text)
  else if kindIs "numbered_list_item" then
    let text := richTextToPlain (payload_at block "numbered_list_item" ?. rich_text) in
    textThenChildren block indent text (indentStr ++ "# " ++ escapeValue text)
  else if kindIs "to_do" then
    let text := richTextToPlain (payload_at block "to_do" ?. rich_text) in
    let checked := if isTrue (payload_at block "to_do" ?. checked) then "[x]" else "[ ]" in
    textThenChildren block indent text (indentStr ++ checked ++ " " ++ escapeValue text)
  else if kindIs "toggle" then
    let text := richTextToPlain (payload_at block "toggle" ?. rich_text) in
    textThenChildren block indent text (indentStr ++ "toggle: " ++ escapeValue text)
  else if kindIs "code" then
    let text := richTextToPlain (payload_at block "code" ?. rich_text) in
    let lang := orDefault (payload_at block "code" ?. language) "plain" in
    if truthy text then
      let codeLines := split_newline text in
      Some ((indentStr ++ "code[" ++ lang ++ "]:")
            :: map (fun codeLine => indentStr ++ "  " ++ codeLine) codeLines)
    else Some []
  else if kindIs "quote" then
    let text := richTextToPlain (payload_at block "quote" ?. rich_text) in
    textThenChildren block indent text (indentStr ++ "quote: " ++ escapeValue text)
  else if kindIs "callout" then
    let text := richTextToPlain (payload_at block "callout" ?. rich_text) in
    let icon := orDefault (payload_at block "callout" ?. icon ?. emoji) "💡" in
    textThenChildren block indent text
      (indentStr ++ "callout[" ++ icon ++ "]: " ++ escapeValue text)
  else if kindIs "divider" then
    Some [indentStr ++ "---"]
  else if kindIs "image" then
    let url := orDefault (payload_at block "image" ?. file ?. file_url)
                 (orDefault (payload_at block "image" ?. external ?. file_url) "") in
    let caption := richTextToPlain (payload_at block "image" ?. caption) in
    if truthy caption then Some [indentStr ++ "image: " ++ escapeValue caption]
    else Some [indentStr ++ "image: " ++ url]
  else if kindIs "video" then
    let url := orDefault (payload_at block "video" ?. file ?. file_url)
                 (orDefault (payload_at block "video" ?. external ?. file_url) "") in
    Some [indentStr ++ "video: " ++ url]
  else if kindIs "file" then
    let url := orDefault (payload_at block "file" ?. file ?. file_url)
                 (orDefault (payload_at block "file" ?. external ?. file_url) "") in
    let name := orDefault (payload_at block "file" ?. name) "file" in
    Some [indentStr ++ "file[" ++ name ++ "]: " ++ url]
  else if kindIs "pdf" then
    let url := orDefault (payload_at block "pdf" ?. file ?. file_url)
                 (orDefault (payload_at block "pdf" ?. external ?. file_url) "") in
    Some [indentStr ++ "pdf: " ++ url]
  else if kindIs "bookmark" then
    let url := orDefault (payload_at block "bookmark" ?. url) "" in
    let caption := richTextToPlain (payload_at block "bookmark" ?. caption) in
    if truthy caption then
      Some [indentStr ++ "bookmark: " ++ escapeValue caption ++ " (" ++ url ++ ")"]
    else Some [indentStr ++ "bookmark: " ++ url]
  else if kindIs "link_preview" then
    let url := orDefault (payload_at block "link_preview" ?. url) "" in
    Some [indentStr ++ "link: " ++ url]
  else if kindIs "embed" then
    let url := orDefault (payload_at block "embed" ?. url) "" in
    Some [indentStr ++ "embed: " ++ url]
  else if kindIs "equation" then
    let expr := orDefault (payload_at block "equation" ?. expression) "" in
    Some [indentStr ++ "math: " ++ escapeValue expr]
  else if kindIs "table_of_contents" then
    Some [indentStr ++ "toc:"]
  else if kindIs "breadcrumb" then
    Some [indentStr ++ "breadcrumb:"]
  else if kindIs "column_list" then
    match children block with
    | Some columns =>
        nested <- concatAll (map (fun col => childLines col (indent + 1)) columns) ;;
        Some ((indentStr ++ "columns:") :: nested)
    | None => Some []
    end
  else if kindIs "synced_block" then
    childLines block indent
  else if kindIs "child_page" then
    let title := orDefault (payload_at block "child_page" ?. title) "Untitled" in
    Some [indentStr ++ "page: " ++ escapeValue title]
  else if kindIs "child_database" then
    let title := orDefault (payload_at block "child_database" ?. title) "Untitled" in
    Some [indentStr ++ "database: " ++ escapeValue title]
  else if kindIs "link_to_page" then
    let pageId := orDefault (payload_at block "link_to_page" ?. page_id)
                    (orDefault (payload_at block "link_to_page" ?. database_id) "") in
    Some [indentStr ++ "link_to_page: " ++ pageId]
  else
    Some [indentStr ++ "[" ++ kind ++ "]"].

(** [items.some(item => item.children && item.children.length > 0)]. *)
Definition someHasChildren (items : list Block) : bool :=
  existsb (fun item => match children item with
                       | Some blocks => Nat.ltb 0 (length blocks)
                       | None => false
                       end) items.

Definition formatListItems_with (items : list Block) (indentStr : string)
  : option (list string) :=
  match items with
  | [] => Some []
  | first :: _ =>
      let kind := type first in
      let hasChildren := someHasChildren items in
      if negb hasChildren && Nat.leb 2 (length items) then
        let prefix := if String.eqb kind "bulleted_list_item" then "items"
                      else if String.eqb kind "numbered_list_item" then "list"
                      else "todos" in
        Some ((indentStr ++ prefix ++ "[" ++ of_nat (length items) ++ "]:")
              :: map (fun item =>
                        let blockContent := payload_at item kind in
                        let text := richTextToPlain (blockContent ?. rich_text) in
                        if String.eqb kind "to_do" then
                          let checked := if isTrue (blockContent ?. checked)
                                         then "[x]" else "[ ]" in
                          indentStr ++ "  " ++ checked ++ " " ++ escapeValue text
                        else indentStr ++ "  " ++ escapeValue text) items)
      else
        concatAll (map (fun item =>
                          lines <- convertBlock_with item 0 ;;
                          Some (map (fun l => indentStr ++ l) lines)) items)
  end.

End OpenRecursion.

(** [convertBlocks]: one unit of fuel per loop iteration and per level of
    nesting.  The loop variable [i] is the list of the blocks not yet
    visited. *)
Fixpoint convertBlocks_fuel (fuel : nat) (blocks : list Block) (indent : nat)
  : option (list string) :=
  match fuel with
  | O => None
  | S fuel' =>
      let indentStr := repeatStr "  " indent in
      match blocks with
      | [] => Some []
      | block :: rest =>
          if isListItem block then
            let listItems := collectListItems blocks in
            group <- formatListItems_with (convertBlocks_fuel fuel') listItems indentStr ;;
            more <- convertBlocks_fuel fuel' (skipn (length listItems) blocks) indent ;;
            Some (group ++ more)%list
          else if String.eqb (type block) "table" then
            more <- convertBlocks_fuel fuel' rest indent ;;
            Some (formatTable block indentStr ++ more)%list
          else
            blockLines <- convertBlock_with (convertBlocks_fuel fuel') block indent ;;
            more <- convertBlocks_fuel fuel' rest indent ;;
            Some (blockLines ++ more)%list
      end
  end.

(** Fuel that always suffices: one more than the number of blocks. *)
Definition blocks_fuel (blocks : list Block) : nat := S (blocks_weight blocks).

Definition linesOf (result : option (list string)) : list string :=
  match result with
  | Some lines => lines
  | None => []
  end.

Definition convertBlocks (blocks : list Block) (indent : nat) : list string :=
  linesOf (convertBlocks_fuel (blocks_fuel blocks) blocks indent).

(** The conversion of the nested blocks, as a callee that always returns. *)
Definition converted : list Block -> nat -> option (list string) :=
  fun blocks depth => Some (convertBlocks blocks depth).

Definition convertBlock (block : Block) (indent : nat) : list string :=
  linesOf (convertBlock_with converted block indent).

Definition formatListItems (items : list Block) (indentStr : string) : list string :=
  linesOf (formatListItems_with converted items indentStr).

(** ** toon-converter.js: [convertToToon] *)

(** The array [lines] of [convertToToon] just before [lines.join('\n')],
    given the lines of the content section. *)
Definition toonLines (page : Page) (content : list string) : list string :=
  let meta := ["meta:";
               "  id: " ++ id page;
               "  created: " ++ created_time page;
               "  updated: " ++ last_edited_time page] in
  let title := extractTitle page in
  let titleLines := match title with
                    | Some t => pushIf t ("  title: " ++ escapeValue t)
                    | None => []
                    end in
  let properties := convertProperties (properties page) in
  let propertyLines := if Nat.ltb 0 (length properties)
                       then "properties:" :: map (fun prop => "  " ++ prop) properties
                       else [] in
  let contentLines := if Nat.ltb 0 (length content)
                      then "content:" :: map (fun line => "  " ++ line) content
                      else [] in
  (meta ++ titleLines ++ propertyLines ++ contentLines)%list.

Definition convertToToon_fuel (fuel : nat) (page : Page) (blocks : list Block)
  : option string :=
  content <- convertBlocks_fuel fuel blocks 0 ;;
  Some (join LF (toonLines page content)).

Definition convertToToon (page : Page) (blocks : list Block) : string :=
  join LF (toonLines page (convertBlocks blocks 0)).

(** ** Vocabulary of the specification *)

(** The kinds that [convertBlocks] groups. *)
Definition listKinds : list string :=
  ["bulleted_list_item"; "numbered_list_item"; "to_do"].

(** The label of the header line of a grouped run, per kind. *)
Definition runLabel (kind : string) : string :=
  if String.eqb kind "bulleted_list_item" then "items"
  else if String.eqb kind "numbered_list_item" then "list"
  else "todos".

(** The rendered text of a block: its rich text, concatenated. *)
Definition renderedText (block : Block) : string :=
  richTextToPlain (payload block ?. rich_text).

(** [[x]] or [[ ]], per the checked state of a [to_do]. *)
Definition checkMark (block : Block) : string :=
  if isTrue (payload block ?. checked) then "[x]" else "[ ]".

(** A block has children: a child sequence that is not empty. *)
Definition hasChildren (block : Block) : bool :=
  match children block with
  | Some (_ :: _) => true
  | _ => false
  end.

(** The marker of a list item in the regular dispatch. *)
Definition itemMarker (item : Block) : string :=
  if String.eqb (type item) "bulleted_list_item" then "- "
  else if String.eqb (type item) "numbered_list_item" then "# "
  else checkMark item ++ " ".

(** The line of one item of a grouped run: no marker, except that a
    [to_do] keeps its check mark. *)
Definition runItemLine (indentStr : string) (item : Block) : string :=
  if String.eqb (type item) "to_do"
  then indentStr ++ "  " ++ checkMark item ++ " " ++ escapeValue (renderedText item)
  else indentStr ++ "  " ++ escapeValue (renderedText item).

(** The lines of the children of a block, one level deeper. *)
Definition nestedLines (block : Block) (depth : nat) : list string :=
  match children block with
  | Some blocks => convertBlocks blocks depth
  | None => []
  end.

(** The line of one data row of a table. *)
Definition rowLine (indentStr : string) (row : Block) : string :=
  indentStr ++ "  " ++ join "," (map escapeValue (rowCells row)).

(** The column-header flag of a table block. *)
Definition headerFlag (block : Block) : bool :=
  isTrue (payload block ?. has_column_header).

(** The kinds that push one marked line and then their children. *)
Definition markedKinds : list (string * string) :=
  [("heading_1", "h1: "); ("heading_2", "h2: "); ("heading_3", "h3: ");
   ("bulleted_list_item", "- "); ("numbered_list_item", "# ");
   ("toggle", "toggle: "); ("quote", "quote: ")].

(** A run of siblings ends where [before] ends: the last block of
    [before] and the first block of [after] are not two list items of the
    same kind. *)
Definition boundary (before after : list Block) : Prop :=
  forall pre x y post,
    before = (pre ++ [x])%list -> after = y :: post ->
    isListItem x = true -> type x = type y -> False.

(** A result whose lines are all pushed [k] levels deeper. *)
Definition shiftedBy (k : nat) (result : option (list string)) : option (list string) :=
  option_map (map (append (repeatStr "  " k))) result.

(** The entries of the property map of a page. *)
Definition entriesOf (page : Page) : list (string * Property) :=
  match properties page with
  | Some entries => entries
  | None => []
  end.

(** The kinds whose line is a label followed by a URL, with the label. *)
Definition urlKinds : list (string * string) :=
  [("video", "video: "); ("pdf", "pdf: "); ("link_preview", "link: "); ("embed", "embed: ")].

(** No URL is to be found in a block: neither [url], nor [file.url], nor
    [external.url]. *)
Definition noUrl (block : Block) : Prop :=
  (payload block ?. url) = None /\
  (payload block ?. file ?. file_url) = None /\
  (payload block ?. external ?. file_url) = None.

(** The kinds [convertBlocks] and [convertBlock] have a case for. *)
Definition recognizedKinds : list string :=
  ["paragraph"; "heading_1"; "heading_2"; "heading_3"; "bulleted_list_item";
   "numbered_list_item"; "to_do"; "toggle"; "code"; "quote"; "callout"; "divider";
   "image"; "video"; "file"; "pdf"; "bookmark"; "link_preview"; "embed"; "equation";
   "table_of_contents"; "breadcrumb"; "column_list"; "synced_block"; "child_page";
   "child_database"; "link_to_page"; "table"].

(** A property value the specification calls empty: [null], [undefined],
    the empty string, or an empty sequence. *)
Definition isEmptyValue (value : JsValue) : bool :=
  match value with
  | VNull | VUndefined => true
  | VString s => String.eqb s ""
  | VArray [] => true
  | _ => false
  end.

(** ** Builders for concrete pages and blocks *)

Definition plainText (s : string) : RichText := [ {| plain_text := Some s |} ].

Definition emptyPayload : Payload :=
  {| rich_text := None; checked := None; language := None; icon := None;
     file := None; external := None; caption := None; name := None; url := None;
     expression := None; title := None; page_id := None; database_id := None;
     has_column_header := None; cells := None |}.

Definition textPayload (s : string) : Payload :=
  {| rich_text := Some (plainText s); checked := None; language := None; icon := None;
     file := None; external := None; caption := None; name := None; url := None;
     expression := None; title := None; page_id := None; database_id := None;
     has_column_header := None; cells := None |}.

Definition todoPayload (s : string) (done : bool) : Payload :=
  {| rich_text := Some (plainText s); checked := Some done; language := None;
     icon := None; file := None; external := None; caption := None; name := None;
     url := None; expression := None; title := None; page_id := None;
     database_id := None; has_column_header := None; cells := None |}.

Definition tablePayload (withHeader : bool) : Payload :=
  {| rich_text := None; checked := None; language := None; icon := None;
     file := None; external := None; caption := None; name := None; url := None;
     expression := None; title := None; page_id := None; database_id := None;
     has_column_header := Some withHeader; cells := None |}.

Definition rowPayload (cellTexts : list string) : Payload :=
  {| rich_text := None; checked := None; language := None; icon := None;
     file := None; external := None; caption := None; name := None; url := None;
     expression := None; title := None; page_id := None; database_id := None;
     has_column_header := None; cells := Some (map plainText cellTexts) |}.

Definition textBlock (kind text : string) (nested : option (list Block)) : Block :=
  mkBlock kind (Some (textPayload text)) nested.

Definition todoBlock (text : string) (done : bool) (nested : option (list Block)) : Block :=
  mkBlock "to_do" (Some (todoPayload text done)) nested.

Definition rowBlock (cellTexts : list string) : Block :=
  mkBlock "table_row" (Some (rowPayload cellTexts)) None.

Definition tableBlock (withHeader : bool) (rows : list Block) : Block :=
  mkBlock "table" (Some (tablePayload withHeader)) (Some rows).

Definition bareBlock (kind : string) : Block := mkBlock kind None None.

Definition examplePage (entries : list (string * Property)) : Page :=
  {| id := "1f0c"; created_time := "2025-01-15T10:30:00.000Z";
     last_edited_time := "2025-01-16T08:00:00.000Z"; properties := Some entries |}.

(** A page with a title and a [multi_select] property without options. *)
Definition emptyTagsPage : Page :=
  examplePage [("Name", PTitle (Some (plainText "Plan")));
               ("Tags", PMultiSelect (Some []))].

(** ** Further vocabulary *)

(** The kinds whose case in [convertBlock] never looks at [block.children]. *)
Definition leafKinds : list string :=
  ["paragraph"; "code"; "divider"; "image"; "video"; "file"; "pdf"; "bookmark";
   "link_preview"; "embed"; "equation"; "table_of_contents"; "breadcrumb";
   "child_page"; "child_database"; "link_to_page"].

(** The caption of a block, as plain text. *)
Definition captionText (block : Block) : string :=
  richTextToPlain (payload block ?. caption).

(** A block without any of the fields of its kind: the object under its
    type key is missing, or is there and holds nothing. *)
Definition fieldless (block : Block) : Prop :=
  payload block = None \/ payload block = Some emptyPayload.

(** The kinds whose one line reads no field of the block, with the line. *)
Definition fixedKinds : list (string * string) :=
  [("divider", "---"); ("table_of_contents", "toc:"); ("breadcrumb", "breadcrumb:")].

(** The kinds whose one line is built from fields of the block, with the
    line that is left when the block has none of them. *)
Definition placeholders : list (string * string) :=
  [("image", "image: "); ("video", "video: "); ("file", "file[file]: ");
   ("pdf", "pdf: "); ("bookmark", "bookmark: "); ("link_preview", "link: ");
   ("embed", "embed: "); ("equation", "math: "); ("child_page", "page: Untitled");
   ("child_database", "database: Untitled"); ("link_to_page", "link_to_page: ")].

(** The kinds that push a line for their text, when there is one, and then
    visit their children. *)
Definition nestingKinds : list string :=
  ["heading_1"; "heading_2"; "heading_3"; "bulleted_list_item"; "numbered_list_item";
   "to_do"; "toggle"; "quote"; "callout"].

(** A line starts with the indentation of a depth. *)
Definition indentedAt (depth : nat) (line : string) : Prop :=
  exists body, line = repeatStr "  " depth ++ body.

(** A line without a line feed. *)
Definition oneLine (line : string) : Prop := includes_newline line = false.

(** An optional text field without a line feed. *)
Definition cleanText (field : option string) : bool :=
  match field with
  | Some s => negb (includes_newline s)
  | None => true
  end.

(** The fields of a payload that [convertBlock] prints without passing
    them through [escapeValue] hold no line feed. *)
Definition payloadClean (content : Payload) : bool :=
  cleanText (language content)
  && cleanText (icon content ?. emoji)
  && cleanText (file content ?. file_url)
  && cleanText (external content ?. file_url)
  && cleanText (name content)
  && cleanText (url content)
  && cleanText (page_id content)
  && cleanText (database_id content).

(** The same for a block and all the blocks below it, its [type] included. *)
Fixpoint blockClean (block : Block) : bool :=
  match block with
  | mkBlock kind content nested =>
      negb (includes_newline kind)
      && match content with
         | Some c => payloadClean c
         | None => true
         end
      && match nested with
         | Some blocks => forallb blockClean blocks
         | None => true
         end
  end.

(** The unescaped fields read under one key of a block are clean. *)
Definition fieldsClean (content : option Payload) : Prop :=
  cleanText (content ?. language) = true
  /\ cleanText (content ?. icon ?. emoji) = true
  /\ cleanText (content ?. file ?. file_url) = true
  /\ cleanText (content ?. external ?. file_url) = true
  /\ cleanText (content ?. name) = true
  /\ cleanText (content ?. url) = true
  /\ cleanText (content ?. page_id) = true
  /\ cleanText (content ?. database_id) = true.

(** The fields of a page that [convertToToon] prints without escaping
    hold no line feed: its id, its two timestamps, the names of its
    properties and the text of the numbers among their values. *)
Definition pageClean (page : Page) : Prop :=
  includes_newline (id page) = false
  /\ includes_newline (created_time page) = false
  /\ includes_newline (last_edited_time page) = false
  /\ forall name prop,
      In (name, prop) (entriesOf page) ->
      includes_newline name = false
      /\ forall n, extractPropertyValue prop = VNumber n ->
                   includes_newline (number_text n) = false.

(** ** service-worker.js: the title shown beside the result *)

Module ServiceWorker.

(** The loop of [extractTitle]: the first property of type [title] whose
    [title] is present decides; an empty text and the absence of such a
    property both give ["Untitled"]. *)
Fixpoint findTitle (entries : list (string * Property)) : string :=
  match entries with
  | [] => "Untitled"
  | (_, prop) :: rest =>
      if String.eqb (prop_type prop) "title" then
        match prop_title prop with
        | Some fragments =>
            orDefault (Some (join "" (map (fun t => orDefault (plain_text t) "") fragments)))
              "Untitled"
        | None => findTitle rest
        end
      else findTitle rest
  end.

Definition extractTitle (page : Page) : string :=
  match properties page with
  | None => "Untitled"
  | Some entries => findTitle entries
  end.

End ServiceWorker.

(** ** page-parser: the page id of a URL or of a bare id

    The two built-ins the parser relies on, [String.prototype.trim] and the
    [URL] constructor, are parameters: [parseUrl] returns the [hostname] and
    the [pathname] of a URL, or [None] where [new URL] throws. *)

Module PageParser.

(** A character of the class [[a-f0-9]] under the flag [i]. *)
Definition isHexChar (c : ascii) : bool :=
  let n := nat_of_ascii c in
  (Nat.leb 48 n && Nat.leb n 57) || (Nat.leb 97 n && Nat.leb n 102)
  || (Nat.leb 65 n && Nat.leb n 70).

(** [toLowerCase] on one character.  The parser only lowers strings that
    matched a pattern of hexadecimal digits and dashes. *)
Definition lowerChar (c : ascii) : ascii :=
  let n := nat_of_ascii c in
  if Nat.leb 65 n && Nat.leb n 90 then ascii_of_nat (n + 32) else c.

Fixpoint toLowerCase (s : string) : string :=
  match s with
  | EmptyString => EmptyString
  | String c rest => String (lowerChar c) (toLowerCase rest)
  end.

(** Consumes exactly [n] characters of the class, if they are there. *)
Fixpoint takeHex (n : nat) (s : string) : option string :=
  match n with
  | O => Some s
  | S k =>
      match s with
      | String c rest => if isHexChar c then takeHex k rest else None
      | EmptyString => None
      end
  end.

(** Groups of hexadecimal digits separated by dashes, up to the end. *)
Fixpoint matchGroups (groups : list nat) (s : string) : bool :=
  match groups with
  | [] => String.eqb s ""
  | [n] =>
      match takeHex n s with
      | Some rest => String.eqb rest ""
      | None => false
      end
  | n :: more =>
      match takeHex n s with
      | Some (String "-" rest) => matchGroups more rest
      | _ => false
      end
  end.

(** [/^[a-f0-9]{8}-[a-f0-9]{4}-[a-f0-9]{4}-[a-f0-9]{4}-[a-f0-9]{12}$/i.test(s)]. *)
Definition uuidWithDashes (s : string) : bool := matchGroups [8; 4; 4; 4; 12] s.

(** [/^[a-f0-9]{32}$/i.test(s)]. *)
Definition uuidWithoutDashes (s : string) : bool := matchGroups [32] s.

(** [s.slice(from, to)] and [s.slice(from)] for indices within the string. *)
Definition slice (s : string) (from to : nat) : string := substring from (to - from) s.

Definition sliceFrom (s : string) (from : nat) : string :=
  substring from (String.length s - from) s.

Definition formatAsUuid (hex : string) : string :=
  let hex := toLowerCase hex in
  slice hex 0 8 ++ "-" ++ slice hex 8 12 ++ "-" ++ slice hex 12 16 ++ "-"
  ++ slice hex 16 20 ++ "-" ++ sliceFrom hex 20.

(** [s.match(/(<pattern>)$/i)] for a pattern of fixed width: the last
    [width] characters, when they match. *)
Definition matchSuffix (pattern : string -> bool) (width : nat) (s : string)
  : option string :=
  if Nat.leb width (String.length s) then
    let tail := sliceFrom s (String.length s - width) in
    if pattern tail then Some tail else None
  else None.

(** [s.split(c)]. *)
Fixpoint splitOn (c : ascii) (s : string) : list string :=
  match s with
  | EmptyString => [EmptyString]
  | String x rest =>
      if Ascii.eqb x c then EmptyString :: splitOn c rest
      else match splitOn c rest with
           | piece :: pieces => String x piece :: pieces
           | [] => [String x EmptyString]
           end
  end.

(** [s.includes(needle)]. *)
Fixpoint includesStr (needle s : string) : bool :=
  if prefix needle s then true
  else match s with
       | EmptyString => false
       | String _ rest => includesStr needle rest
       end.

Section Builtins.

Variable trim : string -> string.
Variable parseUrl : string -> option (string * string).

Definition extractPageId (input : string) : option string :=
  if negb (truthy input) then None
  else
    let input := trim input in
    if uuidWithDashes input then Some (toLowerCase input)
    else if uuidWithoutDashes input then Some (formatAsUuid input)
    else
      match parseUrl input with
      | Some (hostname, pathname) =>
          if negb (includesStr "notion.so" hostname)
             && negb (includesStr "notion.site" hostname)
          then None
          else
            let segments :=
              filter (fun s => Nat.ltb 0 (String.length s)) (splitOn "/" pathname) in
            match rev segments with
            | [] => None
            | lastSegment :: _ =>
                let cleanSegment := hd "" (splitOn "?" lastSegment) in
                match matchSuffix uuidWithoutDashes 32 cleanSegment with
                | Some id => Some (formatAsUuid id)
                | None =>
                    match matchSuffix uuidWithDashes 36 cleanSegment with
                    | Some id => Some (toLowerCase id)
                    | None =>
                        if uuidWithoutDashes cleanSegment
                        then Some (formatAsUuid cleanSegment)
                        else None
                    end
                end
            end
      | None =>
          match matchSuffix uuidWithoutDashes 32 input with
          | Some id => Some (formatAsUuid id)
          | None => None
          end
      end.

Definition isNotionUrl (url : string) : bool :=
  if negb (truthy url) then false
  else
    match parseUrl url with
    | Some (hostname, _) =>
        includesStr "notion.so" hostname || includesStr "notion.site" hostname
    | None => false
    end.

End Builtins.

End PageParser.

(** A string with its dashes taken out. *)
Fixpoint withoutDashes (s : string) : string :=
  match s with
  | EmptyString => EmptyString
  | String c rest =>
      if Ascii.eqb c "-" then withoutDashes rest else String c (withoutDashes rest)
  end.

(** Stand-ins for the two built-ins of the page parser in examples: a
    [trim] that has nothing to strip and a [URL] constructor that accepts
    one address. *)
Definition noTrim (s : string) : string := s.

Definition exampleUrl : string :=
  "https://www.notion.so/team/Road-Map-0123456789ABCDEF0123456789abcdef?pvs=4".

Definition exampleParser (address : string) : option (string * string) :=
  if String.eqb address exampleUrl
  then Some ("www.notion.so", "/team/Road-Map-0123456789ABCDEF0123456789abcdef")
  else None.

(** ** Properties of the string helpers *)

Section StringFacts.

Lemma includes_newline_spec (s : string) :
  includes_newline s = true <-> contains_newline s.
Proof.
  unfold contains_newline. induction s as [|c rest IH]; simpl.
  - split; [discriminate|]. intros (b & a & H).
    destruct b; discriminate.
  - destruct (Ascii.eqb_spec c newline) as [->|Hc].
    + split; [|reflexivity]. intros _. exists "", rest. reflexivity.
    + rewrite IH. split.
      * intros (b & a & ->). exists (String c b), a. reflexivity.
      * intros (b & a & H). destruct b as [|c' b]; simpl in H.
        -- injection H as H1 _. contradiction.
        -- injection H as _ H2. exists b, a. exact H2.
Qed.

Lemma includes_newline_false (s : string) :
  includes_newline s = false <-> ~ contains_newline s.
Proof.
  rewrite <- includes_newline_spec.
  destruct (includes_newline s); split; intros H; try reflexivity;
    try discriminate; try (intro; discriminate).
  exfalso. apply H. reflexivity.
Qed.

Lemma includes_newline_app (s t : string) :
  includes_newline (s ++ t) = includes_newline s || includes_newline t.
Proof.
  induction s as [|c rest IH]; simpl; [reflexivity|].
  destruct (Ascii.eqb c newline); [reflexivity|exact IH].
Qed.

Lemma split_newline_not_nil (s : string) : split_newline s <> [].
Proof.
  induction s as [|c rest IH]; simpl; [discriminate|].
  destruct (Ascii.eqb c newline); [discriminate|].
  destruct (split_newline rest); discriminate.
Qed.

(** The first piece of a split is the text before the first line feed. *)
Lemma split_newline_first (before after : string) :
  includes_newline before = false ->
  hd "" (split_newline (before ++ String newline after)) = before.
Proof.
  induction before as [|c rest IH]; simpl; intros H.
  - reflexivity.
  - destruct (Ascii.eqb c newline); [discriminate|].
    specialize (IH H).
    destruct (split_newline (rest ++ String newline after)) as [|p ps] eqn:E.
    + exfalso. exact (split_newline_not_nil _ E).
    + simpl in IH. subst p. reflexivity.
Qed.

Lemma split_newline_no_newline (s : string) :
  includes_newline s = false -> split_newline s = [s].
Proof.
  induction s as [|c rest IH]; simpl; intros H; [reflexivity|].
  destruct (Ascii.eqb c newline); [discriminate|].
  rewrite (IH H). reflexivity.
Qed.

Lemma truthy_false (s : string) : truthy s = false <-> s = "".
Proof. destruct s; simpl; split; congruence. Qed.

End StringFacts.

(** ** Fuel: enough of it gives the result, more of it changes nothing *)

Section FuelFacts.

Lemma block_weight_children (block : Block) (blocks : list Block) :
  children block = Some blocks -> blocks_weight blocks < block_weight block.
Proof.
  destruct block as [k p cs]; simpl. intros ->. unfold blocks_weight. lia.
Qed.

Lemma block_weight_In (block : Block) (blocks : list Block) :
  In block blocks -> block_weight block <= blocks_weight blocks.
Proof.
  unfold blocks_weight. induction blocks as [|b rest IH]; simpl; [tauto|].
  intros [->|H]; [lia|]. specialize (IH H). lia.
Qed.

Lemma nested_in_weight (block : Block) (blocks : list Block) :
  nested_in block blocks -> blocks_weight blocks < block_weight block.
Proof.
  intros [H|(columns & col & Hc & Hin & Hn)].
  - exact (block_weight_children _ _ H).
  - pose proof (block_weight_children _ _ Hc).
    pose proof (block_weight_children _ _ Hn).
    pose proof (block_weight_In _ _ Hin). lia.
Qed.

Lemma concatAll_map_mono (A : Type) (f g : A -> option (list string)) (l : list A) :
  (forall x r, In x l -> f x = Some r -> g x = Some r) ->
  forall r, concatAll (map f l) = Some r -> concatAll (map g l) = Some r.
Proof.
  induction l as [|x rest IH]; simpl; intros Hfg r H; [exact H|].
  destruct (f x) as [lines|] eqn:Ef; [|discriminate].
  rewrite (Hfg x lines (or_introl eq_refl) Ef).
  destruct (concatAll (map f rest)) as [more|] eqn:Er; [|discriminate].
  rewrite (IH (fun y r' Hy => Hfg y r' (or_intror Hy)) more eq_refl).
  exact H.
Qed.

Lemma concatAll_map_total (A : Type) (f : A -> option (list string)) (l : list A) :
  (forall x, In x l -> f x <> None) -> concatAll (map f l) <> None.
Proof.
  induction l as [|x rest IH]; simpl; intros Hf; [discriminate|].
  destruct (f x) eqn:Ef; [|exfalso; exact (Hf x (or_introl eq_refl) Ef)].
  assert (Hr : concatAll (map f rest) <> None).
  { apply IH. intros y Hy. apply Hf. right. exact Hy. }
  destruct (concatAll (map f rest)); [discriminate|congruence].
Qed.

Lemma concatAll_map_Some (A : Type) (f : A -> list string) (l : list A) :
  concatAll (map (fun x => Some (f x)) l) = Some (flat_map f l).
Proof.
  induction l as [|x rest IH]; simpl; [reflexivity|]. rewrite IH. reflexivity.
Qed.

Lemma collectSameType_In (startType : string) (blocks : list Block) (block : Block) :
  In block (collectSameType startType blocks) -> In block blocks.
Proof.
  induction blocks as [|b rest IH]; simpl; [tauto|].
  destruct (String.eqb (type b) startType); simpl; [|tauto].
  intros [->|Hin]; [left; reflexivity|right; exact (IH Hin)].
Qed.

Lemma collectListItems_In (blocks : list Block) (block : Block) :
  In block (collectListItems blocks) -> In block blocks.
Proof.
  destruct blocks as [|first rest]; [tauto|]. apply collectSameType_In.
Qed.

Variables rec1 rec2 : list Block -> nat -> option (list string).

Lemma childLines_mono (block : Block) (depth : nat) (lines : list string) :
  (forall blocks d r, nested_in block blocks -> rec1 blocks d = Some r -> rec2 blocks d = Some r) ->
  childLines rec1 block depth = Some lines -> childLines rec2 block depth = Some lines.
Proof.
  unfold childLines. intros H. destruct (children block) as [cs|] eqn:E; [|trivial].
  apply H. left. exact E.
Qed.

Lemma textThenChildren_mono (block : Block) (indent : nat) (text line : string)
      (lines : list string) :
  (forall blocks d r, nested_in block blocks -> rec1 blocks d = Some r -> rec2 blocks d = Some r) ->
  textThenChildren rec1 block indent text line = Some lines ->
  textThenChildren rec2 block indent text line = Some lines.
Proof.
  unfold textThenChildren. intros H.
  destruct (childLines rec1 block (indent + 1)) as [nested|] eqn:E; [|discriminate].
  rewrite (childLines_mono _ _ _ H E). trivial.
Qed.

Lemma columns_mono (block : Block) (depth : nat) (header : string) (lines : list string) :
  (forall blocks d r, nested_in block blocks -> rec1 blocks d = Some r -> rec2 blocks d = Some r) ->
  match children block with
  | Some columns =>
      nested <- concatAll (map (fun col => childLines rec1 col depth) columns) ;;
      Some (header :: nested)
  | None => Some []
  end = Some lines ->
  match children block with
  | Some columns =>
      nested <- concatAll (map (fun col => childLines rec2 col depth) columns) ;;
      Some (header :: nested)
  | None => Some []
  end = Some lines.
Proof.
  intros H. destruct (children block) as [columns|] eqn:Ec; [|trivial].
  destruct (concatAll (map (fun col => childLines rec1 col depth) columns))
    as [nested|] eqn:E; [|discriminate].
  intros Hl. erewrite concatAll_map_mono; [exact Hl| |exact E].
  intros col r Hin. unfold childLines.
  destruct (children col) as [cs|] eqn:En; [|trivial].
  apply H. right. exists columns, col. auto.
Qed.

Lemma convertBlock_with_mono (block : Block) (indent : nat) (lines : list string) :
  (forall blocks d r, nested_in block blocks -> rec1 blocks d = Some r -> rec2 blocks d = Some r) ->
  convertBlock_with rec1 block indent = Some lines ->
  convertBlock_with rec2 block indent = Some lines.
Proof.
  intros H. unfold convertBlock_with. cbv zeta.
  repeat (destruct (String.eqb (type block) _);
          [ first [ solve [trivial]
                  | solve [apply (textThenChildren_mono _ _ _ _ _ H)]
                  | solve [apply (childLines_mono _ _ _ H)]
                  | solve [apply (columns_mono _ _ _ _ H)] ] | ]).
  trivial.
Qed.

Lemma formatListItems_with_mono (items : list Block) (indentStr : string)
      (lines : list string) :
  (forall item blocks d r, In item items -> nested_in item blocks ->
                           rec1 blocks d = Some r -> rec2 blocks d = Some r) ->
  formatListItems_with rec1 items indentStr = Some lines ->
  formatListItems_with rec2 items indentStr = Some lines.
Proof.
  intros H. unfold formatListItems_with.
  destruct items as [|first rest]; [trivial|].
  destruct (negb (someHasChildren (first :: rest)) && Nat.leb 2 (length (first :: rest)));
    [trivial|].
  apply concatAll_map_mono. intros item r Hin.
  destruct (convertBlock_with rec1 item 0) as [ls|] eqn:E; [|discriminate].
  rewrite (convertBlock_with_mono item 0 ls (fun bs d r' => H item bs d r' Hin) E). trivial.
Qed.

End FuelFacts.

Section Totality.

Variable rec : list Block -> nat -> option (list string).

Lemma childLines_total (block : Block) (depth : nat) :
  (forall blocks d, nested_in block blocks -> rec blocks d <> None) ->
  childLines rec block depth <> None.
Proof.
  unfold childLines. intros H. destruct (children block) as [cs|] eqn:E; [|discriminate].
  apply H. left. exact E.
Qed.

Lemma textThenChildren_total (block : Block) (indent : nat) (text line : string) :
  (forall blocks d, nested_in block blocks -> rec blocks d <> None) ->
  textThenChildren rec block indent text line <> None.
Proof.
  unfold textThenChildren. intros H.
  pose proof (childLines_total block (indent + 1) H) as Hc.
  destruct (childLines rec block (indent + 1)); [discriminate|congruence].
Qed.

Lemma columns_total (block : Block) (depth : nat) (header : string) :
  (forall blocks d, nested_in block blocks -> rec blocks d <> None) ->
  match children block with
  | Some columns =>
      nested <- concatAll (map (fun col => childLines rec col depth) columns) ;;
      Some (header :: nested)
  | None => Some []
  end <> None.
Proof.
  intros H. destruct (children block) as [columns|] eqn:Ec; [|discriminate].
  assert (Hc : concatAll (map (fun col => childLines rec col depth) columns) <> None).
  { apply concatAll_map_total. intros col Hin. unfold childLines.
    destruct (children col) as [cs|] eqn:En; [|discriminate].
    apply H. right. exists columns, col. auto. }
  destruct (concatAll (map (fun col => childLines rec col depth) columns));
    [discriminate|congruence].
Qed.

Lemma convertBlock_with_total (block : Block) (indent : nat) :
  (forall blocks d, nested_in block blocks -> rec blocks d <> None) ->
  convertBlock_with rec block indent <> None.
Proof.
  intros H. unfold convertBlock_with. cbv zeta.
  repeat (destruct (String.eqb (type block) _);
          [ first [ solve [discriminate]
                  | solve [apply (textThenChildren_total _ _ _ _ H)]
                  | solve [apply (childLines_total _ _ H)]
                  | solve [apply (columns_total _ _ _ H)]
                  | solve [destruct (truthy _); discriminate] ] | ]).
  discriminate.
Qed.

Lemma formatListItems_with_total (items : list Block) (indentStr : string) :
  (forall item blocks d, In item items -> nested_in item blocks -> rec blocks d <> None) ->
  formatListItems_with rec items indentStr <> None.
Proof.
  intros H. unfold formatListItems_with.
  destruct items as [|first rest]; [discriminate|].
  destruct (negb (someHasChildren (first :: rest)) && Nat.leb 2 (length (first :: rest)));
    [discriminate|].
  apply concatAll_map_total. intros item Hin.
  pose proof (convertBlock_with_total item 0 (fun bs d => H item bs d Hin)) as Hc.
  destruct (convertBlock_with rec item 0); [discriminate|congruence].
Qed.

End Totality.

Section FuelAdequacy.

Lemma blocks_weight_cons (block : Block) (rest : list Block) :
  blocks_weight (block :: rest) = block_weight block + blocks_weight rest.
Proof. reflexivity. Qed.

Lemma block_weight_pos (block : Block) : 0 < block_weight block.
Proof. destruct block; simpl; lia. Qed.

Lemma blocks_weight_skipn (k : nat) (blocks : list Block) :
  blocks_weight (skipn k blocks) <= blocks_weight blocks.
Proof.
  revert blocks. induction k as [|k IH]; intros [|b rest]; simpl; try lia.
  rewrite blocks_weight_cons. specialize (IH rest). lia.
Qed.

Lemma collectListItems_cons (block : Block) (rest : list Block) :
  collectListItems (block :: rest) = block :: collectSameType (type block) rest.
Proof. simpl. rewrite String.eqb_refl. reflexivity. Qed.

Lemma seq_total (first second : option (list string)) :
  first <> None -> second <> None ->
  (group <- first ;; more <- second ;; Some (group ++ more)%list) <> None.
Proof. destruct first, second; congruence. Qed.

(** With more fuel than there are blocks, the conversion returns. *)
Lemma convertBlocks_fuel_total (fuel : nat) :
  forall blocks indent,
    blocks_weight blocks < fuel -> convertBlocks_fuel fuel blocks indent <> None.
Proof.
  induction fuel as [|fuel IH]; intros blocks indent Hw; [lia|].
  destruct blocks as [|block rest]; [discriminate|].
  rewrite blocks_weight_cons in Hw. pose proof (block_weight_pos block) as Hpos.
  assert (Hnested : forall item blocks d,
             In item (block :: rest) -> nested_in item blocks ->
             convertBlocks_fuel fuel blocks d <> None).
  { intros item blocks d Hin Hn. apply IH.
    pose proof (nested_in_weight _ _ Hn).
    pose proof (block_weight_In _ _ Hin) as Hle.
    rewrite blocks_weight_cons in Hle. lia. }
  assert (Hrest : convertBlocks_fuel fuel rest indent <> None) by (apply IH; lia).
  cbn [convertBlocks_fuel]. destruct (isListItem block).
  - apply seq_total.
    + apply formatListItems_with_total. intros item blocks d Hin.
      apply Hnested. apply collectListItems_In. exact Hin.
    + apply IH. rewrite collectListItems_cons.
      change (skipn (length (block :: ?l)) (block :: rest))
        with (skipn (length l) rest).
      pose proof (blocks_weight_skipn (length (collectSameType (type block) rest)) rest).
      lia.
  - destruct (String.eqb (type block) "table").
    + apply (seq_total (Some _)); [discriminate|exact Hrest].
    + apply seq_total; [|exact Hrest].
      apply convertBlock_with_total. intros blocks d.
      apply Hnested. left. reflexivity.
Qed.

(** More fuel does not change a result. *)
Lemma convertBlocks_fuel_mono (fuel : nat) :
  forall fuel' blocks indent lines,
    fuel <= fuel' ->
    convertBlocks_fuel fuel blocks indent = Some lines ->
    convertBlocks_fuel fuel' blocks indent = Some lines.
Proof.
  induction fuel as [|fuel IH]; intros fuel' blocks indent lines Hle H; [discriminate|].
  destruct fuel' as [|fuel']; [lia|]. apply le_S_n in Hle.
  assert (Hrec : forall blocks d r,
             convertBlocks_fuel fuel blocks d = Some r ->
             convertBlocks_fuel fuel' blocks d = Some r).
  { intros bs d r. apply IH. exact Hle. }
  destruct blocks as [|block rest]; [exact H|].
  cbn [convertBlocks_fuel] in H |- *. destruct (isListItem block).
  - destruct (formatListItems_with (convertBlocks_fuel fuel) _ _) as [group|] eqn:Eg;
      [|discriminate].
    rewrite (formatListItems_with_mono _ _ _ _ _
               (fun item bs d r _ _ => Hrec bs d r) Eg).
    destruct (convertBlocks_fuel fuel (skipn _ _) indent) as [more|] eqn:Em; [|discriminate].
    rewrite (Hrec _ _ _ Em). exact H.
  - destruct (String.eqb (type block) "table").
    + destruct (convertBlocks_fuel fuel rest indent) as [more|] eqn:Em; [|discriminate].
      rewrite (Hrec _ _ _ Em). exact H.
    + destruct (convertBlock_with (convertBlocks_fuel fuel) block indent) as [ls|] eqn:Eb;
        [|discriminate].
      rewrite (convertBlock_with_mono _ _ _ _ _ (fun bs d r _ => Hrec bs d r) Eb).
      destruct (convertBlocks_fuel fuel rest indent) as [more|] eqn:Em; [|discriminate].
      rewrite (Hrec _ _ _ Em). exact H.
Qed.

(** Whatever fuel a run had, if it returned, it returned [convertBlocks]. *)
Lemma convertBlocks_fuel_sound (fuel : nat) (blocks : list Block) (indent : nat)
      (lines : list string) :
  convertBlocks_fuel fuel blocks indent = Some lines -> lines = convertBlocks blocks indent.
Proof.
  intros H. unfold convertBlocks.
  destruct (Nat.le_ge_cases fuel (blocks_fuel blocks)) as [Hle|Hge].
  - rewrite (convertBlocks_fuel_mono _ _ _ _ _ Hle H). reflexivity.
  - destruct (convertBlocks_fuel (blocks_fuel blocks) blocks indent) as [ls|] eqn:E.
    + rewrite (convertBlocks_fuel_mono _ _ _ _ _ Hge E) in H. simpl. congruence.
    + exfalso. apply (convertBlocks_fuel_total (blocks_fuel blocks) blocks indent); [|exact E].
      unfold blocks_fuel. lia.
Qed.

Lemma convertBlocks_fuel_enough (fuel : nat) (blocks : list Block) (indent : nat) :
  blocks_weight blocks < fuel ->
  convertBlocks_fuel fuel blocks indent = Some (convertBlocks blocks indent).
Proof.
  intros Hw. pose proof (convertBlocks_fuel_total fuel blocks indent Hw) as Ht.
  destruct (convertBlocks_fuel fuel blocks indent) as [ls|] eqn:E; [|congruence].
  rewrite (convertBlocks_fuel_sound _ _ _ _ E). reflexivity.
Qed.

Lemma convertBlock_fuel_eq (fuel : nat) (block : Block) (indent : nat) :
  block_weight block <= fuel ->
  convertBlock_with (convertBlocks_fuel fuel) block indent = Some (convertBlock block indent).
Proof.
  intros Hw.
  assert (Ht : convertBlock_with (convertBlocks_fuel fuel) block indent <> None).
  { apply convertBlock_with_total. intros blocks d Hn. apply convertBlocks_fuel_total.
    pose proof (nested_in_weight _ _ Hn). lia. }
  destruct (convertBlock_with (convertBlocks_fuel fuel) block indent) as [ls|] eqn:E;
    [|congruence].
  unfold convertBlock.
  rewrite (convertBlock_with_mono (convertBlocks_fuel fuel) converted block indent ls);
    [reflexivity| |exact E].
  intros blocks d r _ Hr. unfold converted.
  rewrite (convertBlocks_fuel_sound _ _ _ _ Hr). reflexivity.
Qed.

Lemma formatListItems_fuel_eq (fuel : nat) (items : list Block) (indentStr : string) :
  (forall item, In item items -> block_weight item <= fuel) ->
  formatListItems_with (convertBlocks_fuel fuel) items indentStr
  = Some (formatListItems items indentStr).
Proof.
  intros Hw.
  assert (Ht : formatListItems_with (convertBlocks_fuel fuel) items indentStr <> None).
  { apply formatListItems_with_total. intros item blocks d Hin Hn.
    apply convertBlocks_fuel_total.
    pose proof (nested_in_weight _ _ Hn). pose proof (Hw item Hin). lia. }
  destruct (formatListItems_with (convertBlocks_fuel fuel) items indentStr) as [ls|] eqn:E;
    [|congruence].
  unfold formatListItems.
  rewrite (formatListItems_with_mono (convertBlocks_fuel fuel) converted items indentStr ls);
    [reflexivity| |exact E].
  intros item blocks d r _ _ Hr. unfold converted.
  rewrite (convertBlocks_fuel_sound _ _ _ _ Hr). reflexivity.
Qed.

(** *** The equations of the source, free of fuel *)

Lemma convertBlocks_nil (indent : nat) : convertBlocks [] indent = [].
Proof. reflexivity. Qed.

Lemma convertBlocks_list (block : Block) (rest : list Block) (indent : nat) :
  isListItem block = true ->
  convertBlocks (block :: rest) indent
  = (formatListItems (collectListItems (block :: rest)) (repeatStr "  " indent)
     ++ convertBlocks (skipn (length (collectListItems (block :: rest))) (block :: rest))
          indent)%list.
Proof.
  intros Hl. unfold convertBlocks at 1. unfold blocks_fuel.
  cbn [convertBlocks_fuel]. rewrite Hl.
  rewrite formatListItems_fuel_eq.
  - rewrite convertBlocks_fuel_enough; [reflexivity|].
    rewrite collectListItems_cons.
    change (skipn (length (block :: ?l)) (block :: rest)) with (skipn (length l) rest).
    pose proof (blocks_weight_skipn (length (collectSameType (type block) rest)) rest).
    pose proof (block_weight_pos block). rewrite blocks_weight_cons. lia.
  - intros item Hin. apply block_weight_In. apply collectListItems_In. exact Hin.
Qed.

Lemma convertBlocks_table (block : Block) (rest : list Block) (indent : nat) :
  isListItem block = false ->
  String.eqb (type block) "table" = true ->
  convertBlocks (block :: rest) indent
  = (formatTable block (repeatStr "  " indent) ++ convertBlocks rest indent)%list.
Proof.
  intros Hl Ht. unfold convertBlocks at 1. unfold blocks_fuel.
  cbn [convertBlocks_fuel]. rewrite Hl, Ht.
  rewrite convertBlocks_fuel_enough; [reflexivity|].
  pose proof (block_weight_pos block). rewrite blocks_weight_cons. lia.
Qed.

Lemma convertBlocks_regular (block : Block) (rest : list Block) (indent : nat) :
  isListItem block = false ->
  String.eqb (type block) "table" = false ->
  convertBlocks (block :: rest) indent
  = (convertBlock block indent ++ convertBlocks rest indent)%list.
Proof.
  intros Hl Ht. unfold convertBlocks at 1. unfold blocks_fuel.
  cbn [convertBlocks_fuel]. rewrite Hl, Ht.
  rewrite convertBlock_fuel_eq.
  - rewrite convertBlocks_fuel_enough; [reflexivity|].
    pose proof (block_weight_pos block). rewrite blocks_weight_cons. lia.
  - rewrite blocks_weight_cons. lia.
Qed.

(** [convertBlock] and [formatListItems] always return. *)
Lemma convertBlock_returns (block : Block) (indent : nat) :
  convertBlock_with converted block indent = Some (convertBlock block indent).
Proof.
  pose proof (convertBlock_with_total converted block indent) as Ht.
  unfold convertBlock.
  destruct (convertBlock_with converted block indent); [reflexivity|].
  exfalso. apply Ht; [|reflexivity]. discriminate.
Qed.

Lemma formatListItems_returns (items : list Block) (indentStr : string) :
  formatListItems_with converted items indentStr = Some (formatListItems items indentStr).
Proof.
  pose proof (formatListItems_with_total converted items indentStr) as Ht.
  unfold formatListItems.
  destruct (formatListItems_with converted items indentStr); [reflexivity|].
  exfalso. apply Ht; [|reflexivity]. discriminate.
Qed.

End FuelAdequacy.

(** ** Value escaping *)

Section Escaping.

Lemma split_newline_head_clean (s : string) :
  includes_newline (hd "" (split_newline s)) = false.
Proof.
  induction s as [|c rest IH]; simpl; [reflexivity|].
  destruct (Ascii.eqb c newline) eqn:Ec; [reflexivity|].
  destruct (split_newline rest) as [|piece pieces]; simpl in *; rewrite Ec; trivial.
Qed.

Lemma escapeValue_unchanged (value : string) :
  includes_newline value = false -> escapeValue value = value.
Proof.
  intros H. unfold escapeValue. rewrite H.
  destruct value; reflexivity.
Qed.

Lemma escapeValue_truncates (before after : string) :
  includes_newline before = false ->
  escapeValue (before ++ String newline after) = before ++ "...".
Proof.
  intros H. unfold escapeValue.
  assert (Hin : includes_newline (before ++ String newline after) = true).
  { rewrite includes_newline_app. simpl. apply orb_true_r. }
  rewrite Hin, (split_newline_first before after H).
  destruct before; reflexivity.
Qed.

Lemma escapeValue_clean (value : string) : includes_newline (escapeValue value) = false.
Proof.
  unfold escapeValue. destruct (truthy value); simpl; [|reflexivity].
  destruct (includes_newline value) eqn:E; [|exact E].
  rewrite includes_newline_app, split_newline_head_clean. reflexivity.
Qed.

End Escaping.

(** C2.  [escapeValue] returns a string without a line feed unchanged,
    commas and colons included, and turns a string with a line feed into
    the text before its first line feed followed by the three characters
    [...]. *)
Theorem escapeValue_spec (value : string) :
  (~ contains_newline value -> escapeValue value = value) /\
  (forall before after,
      value = before ++ String newline after ->
      ~ contains_newline before ->
      escapeValue value = before ++ "...").
Proof.
  split.
  - intros H. apply escapeValue_unchanged, includes_newline_false, H.
  - intros before after -> H.
    apply escapeValue_truncates, includes_newline_false, H.
Qed.

Lemma escapeValue_spec_witness :
  escapeValue "a, b: c" = "a, b: c" /\
  escapeValue ("Hello" ++ String newline "World") = "Hello" ++ "...".
Proof.
  split.
  - apply (proj1 (escapeValue_spec "a, b: c")).
    apply includes_newline_false. reflexivity.
  - apply (proj2 (escapeValue_spec ("Hello" ++ String newline "World")) "Hello" "World").
    + reflexivity.
    + apply includes_newline_false. reflexivity.
Defined.

(** C9.  [escapeValue] is idempotent, because its result never holds a
    line feed. *)
Theorem escapeValue_idempotent (value : string) :
  ~ contains_newline (escapeValue value) /\
  escapeValue (escapeValue value) = escapeValue value.
Proof.
  split.
  - apply includes_newline_false, escapeValue_clean.
  - apply escapeValue_unchanged, escapeValue_clean.
Qed.

(** ** Tables *)

Section Tables.

Lemma table_not_listItem (block : Block) : type block = "table" -> isListItem block = false.
Proof. intros H. unfold isListItem. rewrite H. reflexivity. Qed.

Lemma convertBlocks_single_table (block : Block) (indent : nat) :
  type block = "table" ->
  convertBlocks [block] indent = formatTable block (repeatStr "  " indent).
Proof.
  intros H. rewrite convertBlocks_table.
  - rewrite convertBlocks_nil. apply app_nil_r.
  - apply table_not_listItem, H.
  - rewrite H. reflexivity.
Qed.

Lemma payload_at_own (block : Block) (kind : string) :
  type block = kind -> payload_at block kind = payload block.
Proof. intros H. unfold payload_at. rewrite H, String.eqb_refl. reflexivity. Qed.

End Tables.

(** C3.  A table block without row children emits the single line
    [table[0]:].  With the column-header flag set, the cells of the first
    row are the headers, that row is not a data row, and the header line is
    [table[<data rows>]{<headers>}:] with the escaped headers joined by
    commas; without the flag, or when the first row has no cell, the header
    line is [table[<data rows>]:].  Each data row then gives one line, one
    indent deeper: its cells as plain text, escaped and joined by commas. *)
Theorem formatTable_spec (block : Block) (indent : nat) :
  type block = "table" ->
  let indentStr := repeatStr "  " indent in
  convertBlocks [block] indent = formatTable block indentStr /\
  (children block = None \/ children block = Some [] ->
   formatTable block indentStr = [indentStr ++ "table[0]:"]) /\
  (forall headerRow dataRows,
      children block = Some (headerRow :: dataRows) ->
      headerFlag block = true ->
      rowCells headerRow <> [] ->
      formatTable block indentStr
      = (indentStr ++ "table[" ++ of_nat (length dataRows) ++ "]{"
           ++ join "," (map escapeValue (rowCells headerRow)) ++ "}:")
        :: map (rowLine indentStr) dataRows) /\
  (forall headerRow dataRows,
      children block = Some (headerRow :: dataRows) ->
      headerFlag block = true ->
      rowCells headerRow = [] ->
      formatTable block indentStr
      = (indentStr ++ "table[" ++ of_nat (length dataRows) ++ "]:")
        :: map (rowLine indentStr) dataRows) /\
  (forall firstRow otherRows,
      children block = Some (firstRow :: otherRows) ->
      headerFlag block = false ->
      formatTable block indentStr
      = (indentStr ++ "table[" ++ of_nat (length (firstRow :: otherRows)) ++ "]:")
        :: map (rowLine indentStr) (firstRow :: otherRows)).
Proof.
  intros Hk indentStr. split; [exact (convertBlocks_single_table block indent Hk)|].
  unfold formatTable, headerFlag. rewrite (payload_at_own block "table" Hk).
  repeat split.
  - intros [->| ->]; reflexivity.
  - intros headerRow dataRows -> -> Hcells.
    destruct (rowCells headerRow) as [|c cs] eqn:E; [congruence|]. reflexivity.
  - intros headerRow dataRows -> -> ->. reflexivity.
  - intros firstRow otherRows -> ->. reflexivity.
Qed.

Lemma formatTable_spec_witness :
  formatTable
    (tableBlock true [rowBlock ["Col1"; "Col2"]; rowBlock ["a"; "b"]; rowBlock ["c"; "d"]])
    (repeatStr "  " 0)
  = ["table[2]{Col1,Col2}:"; "  a,b"; "  c,d"].
Proof.
  rewrite (proj1 (proj2 (proj2 (formatTable_spec
             (tableBlock true
                [rowBlock ["Col1"; "Col2"]; rowBlock ["a"; "b"]; rowBlock ["c"; "d"]])
             0 eq_refl)))
             (rowBlock ["Col1"; "Col2"]) [rowBlock ["a"; "b"]; rowBlock ["c"; "d"]]
             eq_refl eq_refl).
  - reflexivity.
  - discriminate.
Defined.

(** ** Block dispatch, kind by kind *)

(** Evaluates the [switch] of [convertBlock] once the kind is known. *)
Ltac switch_on Hk :=
  unfold convertBlock, convertBlock_with; cbv zeta; rewrite Hk;
  cbv [String.eqb Ascii.eqb Bool.eqb]; cbv iota beta;
  fold String.eqb;
  repeat rewrite (payload_at_own _ _ Hk);
  unfold textThenChildren, childLines, converted, nestedLines.

Section Dispatch.

Lemma convertBlock_paragraph (block : Block) (indent : nat) :
  type block = "paragraph" ->
  convertBlock block indent
  = pushIf (renderedText block)
      (repeatStr "  " indent ++ "p: " ++ escapeValue (renderedText block)).
Proof. intros Hk. switch_on Hk. reflexivity. Qed.

Lemma convertBlock_marked (block : Block) (indent : nat) (kind marker : string) :
  In (kind, marker) markedKinds ->
  type block = kind ->
  convertBlock block indent
  = (pushIf (renderedText block)
       (repeatStr "  " indent ++ marker ++ escapeValue (renderedText block))
     ++ nestedLines block (indent + 1))%list.
Proof.
  intros Hin Hk. simpl in Hin.
  repeat (destruct Hin as [Hin|Hin];
          [ injection Hin as <- <-; switch_on Hk;
            destruct (children block); reflexivity | ]).
  contradiction.
Qed.

Lemma convertBlock_to_do (block : Block) (indent : nat) :
  type block = "to_do" ->
  convertBlock block indent
  = (pushIf (renderedText block)
       (repeatStr "  " indent ++ checkMark block ++ " " ++ escapeValue (renderedText block))
     ++ nestedLines block (indent + 1))%list.
Proof.
  intros Hk. switch_on Hk. destruct (children block); reflexivity.
Qed.

End Dispatch.

(** ** Runs of list items *)

Section Runs.

Lemma isListItem_kind (block : Block) :
  isListItem block = true <-> In (type block) listKinds.
Proof.
  unfold isListItem, listKinds. rewrite existsb_exists. split.
  - intros (k & Hin & Hk). apply String.eqb_eq in Hk. rewrite Hk. exact Hin.
  - intros Hin. exists (type block). split; [exact Hin|apply String.eqb_refl].
Qed.

Lemma isListItem_same_type (x y : Block) :
  type x = type y -> isListItem x = isListItem y.
Proof. unfold isListItem. intros ->. reflexivity. Qed.

Lemma collectSameType_run (kind : string) (run after : list Block) :
  Forall (fun item => type item = kind) run ->
  (forall y post, after = y :: post -> type y <> kind) ->
  collectSameType kind (run ++ after) = run.
Proof.
  intros Hrun Hafter. induction Hrun as [|item run Hitem _ IH]; simpl.
  - destruct after as [|y post]; [reflexivity|]. simpl.
    destruct (String.eqb_spec (type y) kind) as [E|_]; [|reflexivity].
    exfalso. exact (Hafter y post eq_refl E).
  - rewrite Hitem, String.eqb_refl. simpl. rewrite IH. reflexivity.
Qed.

Lemma collectListItems_run (kind : string) (run after : list Block) :
  run <> [] ->
  Forall (fun item => type item = kind) run ->
  (forall y post, after = y :: post -> type y <> kind) ->
  collectListItems (run ++ after) = run.
Proof.
  intros Hne Hrun Hafter. destruct run as [|first rest]; [congruence|].
  simpl app. unfold collectListItems.
  pose proof (Forall_inv Hrun) as Hfirst. simpl in Hfirst. rewrite Hfirst.
  exact (collectSameType_run kind (first :: rest) after Hrun Hafter).
Qed.

Lemma skipn_length_app (A : Type) (l after : list A) :
  skipn (length l) (l ++ after) = after.
Proof. induction l as [|x l IH]; simpl; [reflexivity|exact IH]. Qed.

Lemma someHasChildren_spec (items : list Block) :
  someHasChildren items = existsb hasChildren items.
Proof.
  unfold someHasChildren. induction items as [|item rest IH]; simpl; [reflexivity|].
  rewrite IH. f_equal. unfold hasChildren.
  destruct (children item) as [[|c cs]|]; reflexivity.
Qed.

(** The grouped form of [formatListItems]. *)
Lemma formatListItems_grouped (kind : string) (items : list Block) (indentStr : string) :
  Forall (fun item => type item = kind) items ->
  existsb hasChildren items = false ->
  2 <= length items ->
  formatListItems items indentStr
  = (indentStr ++ runLabel kind ++ "[" ++ of_nat (length items) ++ "]:")
    :: map (runItemLine indentStr) items.
Proof.
  intros Hkind Hnone Hlen. unfold formatListItems, formatListItems_with.
  destruct items as [|first rest]; [simpl in Hlen; lia|].
  rewrite someHasChildren_spec, Hnone.
  replace (Nat.leb 2 (length (first :: rest))) with true
    by (symmetry; apply Nat.leb_le; exact Hlen).
  pose proof (Forall_inv Hkind) as Hfirst. simpl in Hfirst.
  cbv zeta. rewrite Hfirst. simpl negb. simpl andb. cbv iota. unfold linesOf.
  f_equal. apply map_ext_in. intros item Hin.
  assert (Hitem : type item = kind).
  { rewrite Forall_forall in Hkind. exact (Hkind item Hin). }
  unfold runItemLine, renderedText, checkMark.
  rewrite (payload_at_own item kind Hitem), Hitem. reflexivity.
Qed.

(** The item-by-item form of [formatListItems]. *)
Lemma formatListItems_each (items : list Block) (indentStr : string) :
  existsb hasChildren items = true \/ length items < 2 ->
  formatListItems items indentStr
  = flat_map (fun item => map (fun l => indentStr ++ l) (convertBlock item 0)) items.
Proof.
  intros Hcase. unfold formatListItems, formatListItems_with.
  destruct items as [|first rest]; [reflexivity|].
  rewrite someHasChildren_spec.
  assert (Hno : negb (existsb hasChildren (first :: rest))
                && Nat.leb 2 (length (first :: rest)) = false).
  { destruct Hcase as [->|Hlen]; [reflexivity|].
    apply andb_false_iff. right. apply Nat.leb_gt. exact Hlen. }
  rewrite Hno.
  rewrite (map_ext _ (fun item => Some (map (fun l => indentStr ++ l) (convertBlock item 0)))).
  - rewrite concatAll_map_Some. reflexivity.
  - intros item. rewrite convertBlock_returns. reflexivity.
Qed.

Lemma collectSameType_boundary (kind : string) :
  forall rest last after,
    type last = kind ->
    (forall pre x y post,
        last :: rest = (pre ++ [x])%list -> after = y :: post ->
        type x = kind -> type y <> kind) ->
    collectSameType kind (rest ++ after) = collectSameType kind rest.
Proof.
  induction rest as [|c rest IH]; intros last after Hlast Hb; simpl.
  - destruct after as [|y post]; [reflexivity|]. simpl.
    destruct (String.eqb_spec (type y) kind) as [E|_]; [|reflexivity].
    exfalso. exact (Hb [] last y post eq_refl eq_refl Hlast E).
  - destruct (String.eqb_spec (type c) kind) as [E|_]; [|reflexivity].
    simpl. f_equal. apply (IH c after E).
    intros pre x y post Hpre. apply (Hb (last :: pre) x y post).
    simpl. rewrite <- Hpre. reflexivity.
Qed.

Lemma collectSameType_length (kind : string) (blocks : list Block) :
  length (collectSameType kind blocks) <= length blocks.
Proof.
  induction blocks as [|b rest IH]; simpl; [lia|].
  destruct (negb (String.eqb (type b) kind)); simpl; lia.
Qed.

Lemma boundary_skipn (k : nat) (before after : list Block) :
  boundary before after -> boundary (skipn k before) after.
Proof.
  unfold boundary. intros Hb pre x y post Hpre.
  apply (Hb (firstn k before ++ pre)%list x y post).
  rewrite <- (firstn_skipn k before) at 1. rewrite Hpre. apply app_assoc.
Qed.

Lemma boundary_tail (block : Block) (rest after : list Block) :
  boundary (block :: rest) after -> boundary rest after.
Proof. apply (boundary_skipn 1). Qed.

(** The conversion of a sibling sequence is the concatenation of the
    conversions of its two parts, wherever the cut does not fall inside a
    run of list items of one kind. *)
Lemma convertBlocks_app (indent : nat) (after : list Block) :
  forall n before,
    length before <= n ->
    boundary before after ->
    convertBlocks (before ++ after) indent
    = (convertBlocks before indent ++ convertBlocks after indent)%list.
Proof.
  induction n as [|n IH]; intros before Hlen Hb.
  - destruct before; [reflexivity|simpl in Hlen; lia].
  - destruct before as [|block rest]; [reflexivity|]. simpl in Hlen.
    simpl app. destruct (isListItem block) eqn:Hl.
    + rewrite (convertBlocks_list block (rest ++ after) indent Hl).
      rewrite (convertBlocks_list block rest indent Hl).
      rewrite !collectListItems_cons.
      rewrite (collectSameType_boundary (type block) rest block after eq_refl).
      * change (skipn (length (block :: ?l)) (block :: ?r)) with (skipn (length l) r).
        rewrite skipn_app.
        pose proof (collectSameType_length (type block) rest) as Hrun.
        replace (length (collectSameType (type block) rest) - length rest) with 0 by lia.
        simpl skipn at 2. rewrite IH.
        -- rewrite app_assoc. reflexivity.
        -- rewrite length_skipn. lia.
        -- apply boundary_skipn, boundary_tail with (block := block), Hb.
      * intros pre x y post Hpre Hafter Hx Hy.
        apply (Hb pre x y post Hpre Hafter); [|congruence].
        rewrite <- Hl. apply isListItem_same_type. exact Hx.
    + destruct (String.eqb (type block) "table") eqn:Ht.
      * rewrite !(convertBlocks_table _ _ indent Hl Ht).
        rewrite IH; [|lia|exact (boundary_tail _ _ _ Hb)].
        rewrite app_assoc. reflexivity.
      * rewrite !(convertBlocks_regular _ _ indent Hl Ht).
        rewrite IH; [|lia|exact (boundary_tail _ _ _ Hb)].
        rewrite app_assoc. reflexivity.
Qed.

End Runs.

(** ** Indentation: converting deeper only prefixes every line *)

Section Indentation.

Lemma append_assoc (a b c : string) : (a ++ b) ++ c = a ++ (b ++ c).
Proof. induction a as [|x a IH]; simpl; [reflexivity|]. rewrite IH. reflexivity. Qed.

Lemma repeatStr_add (s : string) (k d : nat) :
  repeatStr s (k + d) = repeatStr s k ++ repeatStr s d.
Proof.
  induction k as [|k IH]; simpl; [reflexivity|]. rewrite IH, append_assoc. reflexivity.
Qed.

Variable rec : list Block -> nat -> option (list string).
Variable k : nat.

Let p : string := repeatStr "  " k.

Let shifted : option (list string) -> option (list string) := shiftedBy k.

Lemma pushIf_shift (text line : string) :
  pushIf text (p ++ line) = map (append p) (pushIf text line).
Proof. unfold pushIf. destruct (truthy text); reflexivity. Qed.

Lemma childLines_shift (block : Block) (d : nat) :
  (forall blocks d', nested_in block blocks -> rec blocks (k + d') = shifted (rec blocks d')) ->
  childLines rec block (k + d) = shifted (childLines rec block d).
Proof.
  intros H. unfold childLines. destruct (children block) as [cs|] eqn:E; [|reflexivity].
  apply H. left. exact E.
Qed.

Lemma textThenChildren_shift (block : Block) (d : nat) (text line : string) :
  (forall blocks d', nested_in block blocks -> rec blocks (k + d') = shifted (rec blocks d')) ->
  textThenChildren rec block (k + d) text (p ++ line)
  = shifted (textThenChildren rec block d text line).
Proof.
  intros H. unfold textThenChildren.
  rewrite <- Nat.add_assoc, (childLines_shift block (d + 1) H).
  destruct (childLines rec block (d + 1)) as [nested|]; [|reflexivity].
  simpl. rewrite pushIf_shift, map_app. reflexivity.
Qed.

Lemma concatAll_shift (A : Type) (f g : A -> option (list string)) (l : list A) :
  (forall x, In x l -> f x = shifted (g x)) ->
  concatAll (map f l) = shifted (concatAll (map g l)).
Proof.
  induction l as [|x rest IH]; intros H; [reflexivity|].
  simpl. rewrite (H x (or_introl eq_refl)), IH by (intros y Hy; apply H; right; exact Hy).
  destruct (g x) as [lines|]; [|reflexivity]. simpl.
  destruct (concatAll (map g rest)) as [more|]; [|reflexivity].
  simpl. rewrite map_app. reflexivity.
Qed.

Lemma columns_shift (block : Block) (d : nat) (header : string) :
  (forall blocks d', nested_in block blocks -> rec blocks (k + d') = shifted (rec blocks d')) ->
  match children block with
  | Some columns =>
      nested <- concatAll (map (fun col => childLines rec col (k + d + 1)) columns) ;;
      Some ((p ++ header) :: nested)
  | None => Some []
  end
  = shifted
      match children block with
      | Some columns =>
          nested <- concatAll (map (fun col => childLines rec col (d + 1)) columns) ;;
          Some (header :: nested)
      | None => Some []
      end.
Proof.
  intros H. destruct (children block) as [columns|] eqn:Ec; [|reflexivity].
  rewrite (concatAll_shift _ (fun col => childLines rec col (k + d + 1))
             (fun col => childLines rec col (d + 1))).
  - destruct (concatAll _) as [nested|]; reflexivity.
  - intros col Hin. rewrite <- Nat.add_assoc. unfold childLines.
    destruct (children col) as [cs|] eqn:En; [|reflexivity].
    apply H. right. exists columns, col. auto.
Qed.

Lemma convertBlock_with_shift (block : Block) (d : nat) :
  (forall blocks d', nested_in block blocks -> rec blocks (k + d') = shifted (rec blocks d')) ->
  convertBlock_with rec block (k + d) = shifted (convertBlock_with rec block d).
Proof.
  intros H. unfold convertBlock_with. cbv zeta.
  rewrite repeatStr_add. fold p. rewrite !append_assoc.
  repeat (destruct (String.eqb (type block) _);
          [ first [ solve [reflexivity]
                  | solve [apply (textThenChildren_shift _ _ _ _ H)]
                  | solve [apply (childLines_shift _ _ H)]
                  | solve [apply (columns_shift _ _ _ H)]
                  | solve [simpl; rewrite pushIf_shift; reflexivity]
                  | solve [destruct (truthy _); reflexivity]
                  | solve [destruct (truthy _); [|reflexivity]; simpl; rewrite map_map;
                           do 2 f_equal; apply map_ext; intros codeLine;
                           rewrite append_assoc; reflexivity] ] | ]).
  reflexivity.
Qed.

End Indentation.

Section IndentationOfSequences.

Lemma map_prefix (A : Type) (body : A -> string) (p s : string) (l : list A) :
  map (fun x => (p ++ s) ++ body x) l = map (append p) (map (fun x => s ++ body x) l).
Proof.
  rewrite map_map. apply map_ext. intros x. apply append_assoc.
Qed.

Lemma formatTable_prefix (block : Block) (p s : string) :
  formatTable block (p ++ s) = map (append p) (formatTable block s).
Proof.
  unfold formatTable.
  destruct (children block) as [[|headerRow others]|];
    try (simpl; rewrite append_assoc; reflexivity).
  cbv zeta. rewrite map_prefix.
  destruct (isTrue _); destruct (Nat.ltb 0 _);
    match goal with
    | |- _ = map ?f (?h :: ?t) => change (map f (h :: t)) with (f h :: map f t)
    end;
    rewrite append_assoc; reflexivity.
Qed.

Lemma formatListItems_prefix (items : list Block) (p s : string) :
  formatListItems items (p ++ s) = map (append p) (formatListItems items s).
Proof.
  destruct (negb (someHasChildren items) && Nat.leb 2 (length items)) eqn:Hc.
  - unfold formatListItems, formatListItems_with.
    destruct items as [|first rest]; [reflexivity|]. rewrite Hc. cbv zeta.
    unfold linesOf.
    match goal with
    | |- _ = map ?f (?h :: ?t) => change (map f (h :: t)) with (f h :: map f t)
    end.
    rewrite append_assoc. f_equal.
    rewrite map_map. apply map_ext. intros item.
    destruct (String.eqb (type first) "to_do"); rewrite append_assoc; reflexivity.
  - assert (Hcase : existsb hasChildren items = true \/ length items < 2).
    { rewrite someHasChildren_spec in Hc. apply andb_false_iff in Hc.
      destruct Hc as [Hc|Hc].
      - left. destruct (existsb hasChildren items); [reflexivity|discriminate].
      - right. apply Nat.leb_gt. exact Hc. }
    rewrite !(formatListItems_each _ _ Hcase).
    induction items as [|item rest IH]; [reflexivity|].
    simpl. rewrite map_app, map_map. f_equal.
    + apply map_ext. intros l. apply append_assoc.
    + clear Hc Hcase IH. induction rest as [|x rest IH]; [reflexivity|].
      simpl. rewrite map_app, map_map, IH. f_equal.
      apply map_ext. intros l. apply append_assoc.
Qed.

Lemma convertBlocks_shift (k : nat) :
  forall n blocks d,
    blocks_weight blocks <= n ->
    convertBlocks blocks (k + d) = map (append (repeatStr "  " k)) (convertBlocks blocks d).
Proof.
  induction n as [|n IH]; intros blocks d Hw.
  - destruct blocks as [|block rest]; [reflexivity|].
    rewrite blocks_weight_cons in Hw. pose proof (block_weight_pos block). lia.
  - destruct blocks as [|block rest]; [reflexivity|].
    rewrite blocks_weight_cons in Hw. pose proof (block_weight_pos block) as Hpos.
    destruct (isListItem block) eqn:Hl.
    + rewrite !(convertBlocks_list block rest _ Hl).
      rewrite repeatStr_add, formatListItems_prefix, map_app. f_equal.
      apply IH. rewrite collectListItems_cons.
      change (skipn (length (block :: ?l)) (block :: rest)) with (skipn (length l) rest).
      pose proof (blocks_weight_skipn (length (collectSameType (type block) rest)) rest).
      lia.
    + destruct (String.eqb (type block) "table") eqn:Ht.
      * rewrite !(convertBlocks_table block rest _ Hl Ht).
        rewrite repeatStr_add, formatTable_prefix, map_app. f_equal. apply IH. lia.
      * rewrite !(convertBlocks_regular block rest _ Hl Ht).
        rewrite map_app. f_equal; [|apply IH; lia].
        unfold convertBlock. rewrite (convertBlock_with_shift converted k block d).
        -- unfold shiftedBy. destruct (convertBlock_with converted block d); reflexivity.
        -- intros blocks d' Hn. unfold converted, shiftedBy. simpl. f_equal.
           apply IH. pose proof (nested_in_weight _ _ Hn). lia.
Qed.

(** [convertBlock] at any depth is [convertBlock] at depth 0 with every
    line indented; this is what [formatListItems] relies on when it calls
    [convertBlock(item, 0)] and prefixes [indentStr]. *)
Lemma convertBlock_indent (block : Block) (indent : nat) :
  map (fun l => repeatStr "  " indent ++ l) (convertBlock block 0)
  = convertBlock block indent.
Proof.
  unfold convertBlock.
  assert (Hs : convertBlock_with converted block (indent + 0)
               = shiftedBy indent (convertBlock_with converted block 0)).
  { apply convertBlock_with_shift. intros blocks d' _.
    unfold converted, shiftedBy. simpl. f_equal.
    apply (convertBlocks_shift indent (blocks_weight blocks)). lia. }
  rewrite Nat.add_0_r in Hs. rewrite Hs. unfold shiftedBy.
  destruct (convertBlock_with converted block 0); reflexivity.
Qed.

Lemma formatListItems_dispatch (items : list Block) (indent : nat) :
  existsb hasChildren items = true \/ length items < 2 ->
  formatListItems items (repeatStr "  " indent)
  = flat_map (fun item => convertBlock item indent) items.
Proof.
  intros Hcase. rewrite (formatListItems_each _ _ Hcase).
  induction items as [|item rest IH]; [reflexivity|].
  simpl. rewrite convertBlock_indent. f_equal.
  clear IH Hcase. induction rest as [|x rest IH]; [reflexivity|].
  simpl. rewrite convertBlock_indent, IH. reflexivity.
Qed.

End IndentationOfSequences.

(** ** List-item grouping *)

Section Grouping.

Lemma convertBlock_listItem (item : Block) (indent : nat) :
  In (type item) listKinds ->
  convertBlock item indent
  = (pushIf (renderedText item)
       (repeatStr "  " indent ++ itemMarker item ++ escapeValue (renderedText item))
     ++ nestedLines item (indent + 1))%list.
Proof.
  unfold listKinds, itemMarker. simpl.
  intros [Hk|[Hk|[Hk|[]]]]; symmetry in Hk; rewrite Hk; simpl String.eqb; cbv iota.
  - apply (convertBlock_marked item indent "bulleted_list_item" "- "); [|exact Hk].
    simpl. tauto.
  - apply (convertBlock_marked item indent "numbered_list_item" "# "); [|exact Hk].
    simpl. tauto.
  - rewrite (convertBlock_to_do item indent Hk), append_assoc. reflexivity.
Qed.

Lemma convertBlocks_run (run after : list Block) (kind : string) (indent : nat) :
  In kind listKinds ->
  run <> [] ->
  Forall (fun item => type item = kind) run ->
  (forall y post, after = y :: post -> type y <> kind) ->
  convertBlocks (run ++ after) indent
  = (formatListItems run (repeatStr "  " indent) ++ convertBlocks after indent)%list.
Proof.
  intros Hkind Hne Hrun Hafter.
  pose proof (collectListItems_run kind run after Hne Hrun Hafter) as Hcollect.
  destruct run as [|first rest]; [congruence|].
  pose proof (Forall_inv Hrun) as Hfirst. simpl in Hfirst.
  assert (Hl : isListItem first = true).
  { apply isListItem_kind. rewrite Hfirst. exact Hkind. }
  simpl app in *. rewrite (convertBlocks_list first (rest ++ after) indent Hl).
  rewrite Hcollect.
  change (first :: rest ++ after) with ((first :: rest) ++ after)%list.
  rewrite skipn_length_app. reflexivity.
Qed.

End Grouping.

(** C1.  In a sibling sequence, take a maximal run of consecutive blocks
    of one kind among [bulleted_list_item], [numbered_list_item] and
    [to_do].  When the run has at least two items and none of them has
    children, it is emitted as the header line [items[n]:], [list[n]:] or
    [todos[n]:] followed by one line per item, one indent deeper, without a
    marker (a [to_do] keeps its check mark).  Otherwise every item of the
    run goes through the regular block dispatch, which emits its marked
    line and then its own children one level deeper. *)
Theorem listRun_grouping (before run after : list Block) (kind : string) (indent : nat) :
  In kind listKinds ->
  run <> [] ->
  Forall (fun item => type item = kind) run ->
  (forall pre x, before = (pre ++ [x])%list -> type x <> kind) ->
  (forall y post, after = y :: post -> type y <> kind) ->
  let indentStr := repeatStr "  " indent in
  convertBlocks (before ++ run ++ after) indent
  = (convertBlocks before indent
     ++ (if Nat.leb 2 (length run) && negb (existsb hasChildren run)
         then (indentStr ++ runLabel kind ++ "[" ++ of_nat (length run) ++ "]:")%string
              :: map (runItemLine indentStr) run
         else flat_map (fun item => convertBlock item indent) run)
     ++ convertBlocks after indent)%list
  /\ forall item,
      In item run ->
      convertBlock item indent
      = (pushIf (renderedText item)
           (indentStr ++ itemMarker item ++ escapeValue (renderedText item))%string
         ++ nestedLines item (indent + 1))%list.
Proof.
  intros Hkind Hne Hrun Hleft Hright indentStr. split.
  - rewrite (convertBlocks_app indent (run ++ after) (length before) before (le_n _)).
    + f_equal. rewrite (convertBlocks_run run after kind indent Hkind Hne Hrun Hright).
      f_equal. destruct (Nat.leb 2 (length run)) eqn:Hlen.
      * destruct (existsb hasChildren run) eqn:Hc; simpl.
        -- apply formatListItems_dispatch. left. exact Hc.
        -- apply formatListItems_grouped; [exact Hrun|exact Hc|].
           apply Nat.leb_le. exact Hlen.
      * simpl. apply formatListItems_dispatch. right. apply Nat.leb_gt. exact Hlen.
    + intros pre x y post Hpre Hpost _ Hxy.
      apply (Hleft pre x Hpre). rewrite Hxy.
      destruct run as [|first rest]; [congruence|].
      simpl in Hpost. injection Hpost as <- _.
      exact (Forall_inv Hrun).
  - intros item Hin. apply convertBlock_listItem.
    rewrite Forall_forall in Hrun. rewrite (Hrun item Hin). exact Hkind.
Qed.

Lemma listRun_grouping_witness :
  convertBlocks
    ([textBlock "heading_1" "Shopping" None]
     ++ [textBlock "bulleted_list_item" "First" None;
         textBlock "bulleted_list_item" "Second" None]
     ++ [textBlock "paragraph" "Done" None]) 0
  = ["h1: Shopping"; "items[2]:"; "  First"; "  Second"; "p: Done"].
Proof.
  assert (Hkind : In "bulleted_list_item" listKinds) by (simpl; tauto).
  assert (Hne : [textBlock "bulleted_list_item" "First" None;
                 textBlock "bulleted_list_item" "Second" None] <> []) by discriminate.
  assert (Hrun : Forall (fun item => type item = "bulleted_list_item")
                   [textBlock "bulleted_list_item" "First" None;
                    textBlock "bulleted_list_item" "Second" None])
    by (repeat constructor).
  assert (Hleft : forall pre x,
             [textBlock "heading_1" "Shopping" None] = (pre ++ [x])%list ->
             type x <> "bulleted_list_item").
  { intros pre x H. destruct pre as [|p0 [|p1 pre]]; simpl in H; try discriminate.
    injection H as <-. discriminate. }
  assert (Hright : forall y post,
             [textBlock "paragraph" "Done" None] = y :: post ->
             type y <> "bulleted_list_item").
  { intros y post H. injection H as <- _. discriminate. }
  destruct (listRun_grouping _ _ _ _ 0 Hkind Hne Hrun Hleft Hright) as [Hmain _].
  rewrite Hmain. reflexivity.
Defined.

(** C10.  A list item whose rendered text is empty still has its line in
    the grouped form (the indent alone, or the indent and the check mark
    followed by its separating space for a [to_do]): the grouped form has
    one line per item after the header, whatever the texts.  In the
    item-by-item form the same item pushes no line of its own: it emits the
    lines of its children and nothing else. *)
Theorem listItem_empty_text (run : list Block) (kind : string) (indent : nat) :
  In kind listKinds ->
  Forall (fun item => type item = kind) run ->
  let indentStr := repeatStr "  " indent in
  (2 <= length run ->
   existsb hasChildren run = false ->
   formatListItems run indentStr
   = (indentStr ++ runLabel kind ++ "[" ++ of_nat (length run) ++ "]:")
     :: map (runItemLine indentStr) run
   /\ length (formatListItems run indentStr) = S (length run)
   /\ forall item,
       In item run ->
       renderedText item = "" ->
       runItemLine indentStr item
       = if String.eqb kind "to_do"
         then indentStr ++ "  " ++ checkMark item ++ " "
         else indentStr ++ "  ")
  /\ (existsb hasChildren run = true \/ length run < 2 ->
      formatListItems run indentStr = flat_map (fun item => convertBlock item indent) run)
  /\ (forall item,
         In item run ->
         renderedText item = "" ->
         convertBlock item indent = nestedLines item (indent + 1)).
Proof.
  intros Hkind Hrun indentStr. split; [|split].
  - intros Hlen Hnone.
    pose proof (formatListItems_grouped kind run indentStr Hrun Hnone Hlen) as Hg.
    split; [exact Hg|split].
    { rewrite Hg. simpl. rewrite length_map. reflexivity. }
    intros item Hin Htext. unfold runItemLine.
    rewrite Forall_forall in Hrun. rewrite (Hrun item Hin), Htext.
    destruct (String.eqb kind "to_do"); reflexivity.
  - apply formatListItems_dispatch.
  - intros item Hin Htext. rewrite Forall_forall in Hrun.
    rewrite convertBlock_listItem by (rewrite (Hrun item Hin); exact Hkind).
    rewrite Htext. reflexivity.
Qed.

Lemma listItem_empty_text_witness :
  formatListItems [todoBlock "" true None; todoBlock "" false None] (repeatStr "  " 1)
  = ["  todos[2]:"; "    [x] "; "    [ ] "]
  /\ convertBlock (todoBlock "" true (Some [textBlock "paragraph" "note" None])) 1
     = ["    p: note"].
Proof.
  assert (Hkind : In "to_do" listKinds) by (simpl; tauto).
  split.
  - assert (Hrun : Forall (fun item => type item = "to_do")
                     [todoBlock "" true None; todoBlock "" false None])
      by (repeat constructor).
    destruct (listItem_empty_text _ "to_do" 1 Hkind Hrun) as [Hgrouped _].
    destruct (Hgrouped (le_n 2) eq_refl) as [Hlines _].
    rewrite Hlines. reflexivity.
  - assert (Hrun : Forall (fun item => type item = "to_do")
                     [todoBlock "" true (Some [textBlock "paragraph" "note" None])])
      by (repeat constructor).
    destruct (listItem_empty_text _ "to_do" 1 Hkind Hrun) as [_ [_ Hown]].
    rewrite (Hown _ (or_introl eq_refl) eq_refl). reflexivity.
Defined.

(** ** Text-bearing blocks *)

(** C4 fails on the code for paragraphs.  A [paragraph] with the text [P]
    and one child paragraph [C] emits the single line [p: P]: the child's
    line is lost.  The same block as a [heading_1] (and likewise for
    [heading_2], [heading_3], [toggle] and [quote], see
    [convertBlock_marked]) emits its own line and then the child's line one
    indent deeper. *)
Theorem paragraph_children_dropped :
  convertBlocks [textBlock "paragraph" "P" (Some [textBlock "paragraph" "C" None])] 0
  = ["p: P"]
  /\ convertBlocks [textBlock "heading_1" "P" (Some [textBlock "paragraph" "C" None])] 0
     = ["h1: P"; "  p: C"].
Proof. split; reflexivity. Qed.

(** For every paragraph, at every depth: the children are never visited. *)
Lemma paragraph_ignores_children (block : Block) (nested : option (list Block))
      (indent : nat) :
  type block = "paragraph" ->
  convertBlock (mkBlock (type block) (payload block) nested) indent
  = convertBlock block indent.
Proof.
  intros Hk. rewrite !convertBlock_paragraph by (simpl; exact Hk). reflexivity.
Qed.

(** ** The properties section *)

Section PropertiesSection.

Lemma indented_not_header (line : string) : "  " ++ line <> "properties:".
Proof. discriminate. Qed.

Lemma propertyLine_nonempty (name : string) (prop : Property) :
  propertyLine (name, prop) <> [] <->
  prop_type prop <> "title" /\ isBlankValue (extractPropertyValue prop) = false.
Proof.
  unfold propertyLine.
  destruct (String.eqb_spec (prop_type prop) "title") as [E|E].
  - split; [congruence|]. intros [H _]. contradiction.
  - destruct (isBlankValue (extractPropertyValue prop)).
    + split; [congruence|]. intros [_ H]. discriminate.
    + split; [intros _; split; [exact E|reflexivity]|discriminate].
Qed.

Lemma flat_map_nonempty (A B : Type) (f : A -> list B) (l : list A) :
  flat_map f l <> [] <-> exists x, In x l /\ f x <> [].
Proof.
  induction l as [|a rest IH]; simpl.
  - split; [congruence|]. intros (x & [] & _).
  - split.
    + intros H. destruct (f a) as [|b bs] eqn:E.
      * simpl in H. apply IH in H. destruct H as (x & Hin & Hx).
        exists x. split; [right; exact Hin|exact Hx].
      * exists a. split; [left; reflexivity|rewrite E; discriminate].
    + intros (x & [->|Hin] & Hx).
      * destruct (f x); [congruence|discriminate].
      * intros H. apply app_eq_nil in H. destruct H as [_ H].
        revert H. apply IH. exists x. split; assumption.
Qed.

Lemma convertProperties_nonempty (page : Page) :
  convertProperties (properties page) <> [] <->
  exists name prop,
    In (name, prop) (entriesOf page) /\
    prop_type prop <> "title" /\ isBlankValue (extractPropertyValue prop) = false.
Proof.
  unfold convertProperties, entriesOf. destruct (properties page) as [entries|].
  - rewrite flat_map_nonempty. split.
    + intros ([name prop] & Hin & Hne). exists name, prop.
      split; [exact Hin|]. exact (proj1 (propertyLine_nonempty name prop) Hne).
    + intros (name & prop & Hin & Hne). exists (name, prop).
      split; [exact Hin|]. exact (proj2 (propertyLine_nonempty name prop) Hne).
  - split; [congruence|]. intros (name & prop & [] & _).
Qed.

Lemma section_header_present (page : Page) (content : list string) :
  In "properties:" (toonLines page content) <-> convertProperties (properties page) <> [].
Proof.
  unfold toonLines. cbv zeta.
  set (props := convertProperties (properties page)).
  rewrite !in_app_iff. split.
  - intros [H|[H|[H|H]]].
    + simpl in H. repeat (destruct H as [H|H]; [discriminate|]). contradiction.
    + destruct (extractTitle page) as [t|]; [|contradiction].
      unfold pushIf in H. destruct (truthy t); [|contradiction].
      destruct H as [H|[]]. discriminate.
    + destruct props; [contradiction|discriminate].
    + destruct (Nat.ltb 0 (length content)); [|contradiction].
      destruct H as [H|H]; [discriminate|].
      apply in_map_iff in H. destruct H as (l & H & _). discriminate.
  - intros Hne. right. right. left.
    destruct props as [|line more]; [congruence|]. left. reflexivity.
Qed.

End PropertiesSection.

(** C5 as stated fails: a page whose only property besides the title is
    an empty [multi_select] has no property with a value that is not
    empty, and its output still has the section, with the line
    [Tags: []]. *)
Lemma properties_section_counterexample :
  (forall name prop,
      In (name, prop) (entriesOf emptyTagsPage) ->
      prop_type prop = "title" \/ isEmptyValue (extractPropertyValue prop) = true)
  /\ toonLines emptyTagsPage []
     = ["meta:"; "  id: 1f0c"; "  created: 2025-01-15T10:30:00.000Z";
        "  updated: 2025-01-16T08:00:00.000Z"; "  title: Plan";
        "properties:"; "  Tags: []"]
  /\ In "properties:" (toonLines emptyTagsPage []).
Proof.
  split; [|split].
  - intros name prop [H|[H|[]]]; injection H as <- <-; [left|right]; reflexivity.
  - reflexivity.
  - simpl. tauto.
Qed.

(** C5, amended.  The section [properties:] is emitted exactly when some
    property that is not the title has an extracted value other than
    [null], [undefined] and the empty string.  An empty sequence is such a
    value: it is kept and rendered [[]]. *)
Theorem properties_section_iff (page : Page) (content : list string) :
  (In "properties:" (toonLines page content) <->
   exists name prop,
     In (name, prop) (entriesOf page) /\
     prop_type prop <> "title" /\
     isBlankValue (extractPropertyValue prop) = false)
  /\ isBlankValue (VArray []) = false
  /\ formatPropertyValue (VArray []) = "[]".
Proof.
  split; [|split; reflexivity].
  rewrite section_header_present. apply convertProperties_nonempty.
Qed.

(** ** Totality and defaults *)

(** Membership in a list written out in full. *)
Ltac in_list := simpl; repeat (first [left; reflexivity | right]).

Section Defaults.

Lemma convertToToon_fuel_enough (fuel : nat) (page : Page) (blocks : list Block) :
  blocks_weight blocks < fuel ->
  convertToToon_fuel fuel page blocks = Some (convertToToon page blocks).
Proof.
  intros Hw. unfold convertToToon_fuel, convertToToon.
  rewrite (convertBlocks_fuel_enough fuel blocks 0 Hw). reflexivity.
Qed.

Lemma convertToToon_fuel_sound (fuel : nat) (page : Page) (blocks : list Block)
      (out : string) :
  convertToToon_fuel fuel page blocks = Some out -> out = convertToToon page blocks.
Proof.
  unfold convertToToon_fuel, convertToToon.
  destruct (convertBlocks_fuel fuel blocks 0) as [content|] eqn:E; [|discriminate].
  intros H. injection H as <-.
  rewrite (convertBlocks_fuel_sound _ _ _ _ E). reflexivity.
Qed.

Lemma convertBlock_url (block : Block) (indent : nat) (kind label : string) :
  In (kind, label) urlKinds ->
  type block = kind ->
  noUrl block ->
  convertBlock block indent = [repeatStr "  " indent ++ label ++ ""].
Proof.
  intros Hin Hk (Hurl & Hfile & Hext). simpl in Hin.
  repeat (destruct Hin as [Hin|Hin];
          [ injection Hin as <- <-; switch_on Hk;
            rewrite ?Hurl, ?Hfile, ?Hext; reflexivity | ]).
  contradiction.
Qed.

Lemma convertBlock_callout_default (block : Block) (indent : nat) :
  type block = "callout" ->
  (payload block ?. icon ?. emoji) = None ->
  convertBlock block indent
  = (pushIf (renderedText block)
       (repeatStr "  " indent ++ "callout[💡]: " ++ escapeValue (renderedText block))
     ++ nestedLines block (indent + 1))%list.
Proof.
  intros Hk Hicon. switch_on Hk. rewrite Hicon.
  destruct (children block); reflexivity.
Qed.

Lemma convertBlock_unknown (block : Block) (indent : nat) :
  ~ In (type block) recognizedKinds ->
  convertBlock block indent = [repeatStr "  " indent ++ "[" ++ type block ++ "]"].
Proof.
  intros Hnot. unfold convertBlock, convertBlock_with. cbv zeta.
  repeat match goal with
         | |- context [String.eqb (type block) ?k] =>
             destruct (String.eqb_spec (type block) k) as [E|_];
             [ exfalso; apply Hnot; rewrite E; in_list | ]
         end.
  reflexivity.
Qed.

Lemma convertBlocks_unknown (block : Block) (indent : nat) :
  ~ In (type block) recognizedKinds ->
  convertBlocks [block] indent = [repeatStr "  " indent ++ "[" ++ type block ++ "]"].
Proof.
  intros Hnot. rewrite convertBlocks_regular.
  - rewrite convertBlocks_nil, app_nil_r. apply convertBlock_unknown, Hnot.
  - destruct (isListItem block) eqn:Hl; [|reflexivity].
    exfalso. apply Hnot. apply isListItem_kind in Hl.
    unfold listKinds in Hl. simpl in Hl. simpl.
    destruct Hl as [<-|[<-|[<-|[]]]]; in_list.
  - destruct (String.eqb_spec (type block) "table") as [E|_]; [|reflexivity].
    exfalso. apply Hnot. rewrite E. in_list.
Qed.

Lemma convertBlock_fixed (block : Block) (indent : nat) (kind line : string) :
  In (kind, line) fixedKinds ->
  type block = kind ->
  convertBlock block indent = [repeatStr "  " indent ++ line].
Proof.
  intros Hin Hk. simpl in Hin.
  repeat (destruct Hin as [Hin|Hin];
          [ injection Hin as <- <-; switch_on Hk; reflexivity | ]).
  contradiction.
Qed.

Lemma convertBlock_placeholder (block : Block) (indent : nat) (kind line : string) :
  In (kind, line) placeholders ->
  type block = kind ->
  fieldless block ->
  convertBlock block indent = [repeatStr "  " indent ++ line].
Proof.
  intros Hin Hk [Hp|Hp]; simpl in Hin;
    repeat (destruct Hin as [Hin|Hin];
            [ injection Hin as <- <-; switch_on Hk; rewrite Hp; reflexivity | ]);
    contradiction.
Qed.

Lemma convertBlock_image_noUrl (block : Block) (indent : nat) :
  type block = "image" ->
  noUrl block ->
  convertBlock block indent
  = [if truthy (captionText block)
     then repeatStr "  " indent ++ "image: " ++ escapeValue (captionText block)
     else repeatStr "  " indent ++ "image: " ++ ""].
Proof.
  intros Hk (_ & Hfile & Hext). switch_on Hk. rewrite Hfile, Hext.
  unfold captionText. destruct (truthy _); reflexivity.
Qed.

Lemma convertBlock_file_noUrl (block : Block) (indent : nat) :
  type block = "file" ->
  noUrl block ->
  convertBlock block indent
  = [repeatStr "  " indent ++ "file[" ++ orDefault (payload block ?. name) "file"
     ++ "]: " ++ ""].
Proof.
  intros Hk (_ & Hfile & Hext). switch_on Hk. rewrite Hfile, Hext. reflexivity.
Qed.

Lemma convertBlock_bookmark_noUrl (block : Block) (indent : nat) :
  type block = "bookmark" ->
  noUrl block ->
  convertBlock block indent
  = [if truthy (captionText block)
     then repeatStr "  " indent ++ "bookmark: " ++ escapeValue (captionText block)
          ++ " (" ++ "" ++ ")"
     else repeatStr "  " indent ++ "bookmark: " ++ ""].
Proof.
  intros Hk (Hurl & _ & _). switch_on Hk. rewrite Hurl.
  unfold captionText. destruct (truthy _); reflexivity.
Qed.

Lemma convertBlock_link_noId (block : Block) (indent : nat) :
  type block = "link_to_page" ->
  (payload block ?. page_id) = None ->
  (payload block ?. database_id) = None ->
  convertBlock block indent = [repeatStr "  " indent ++ "link_to_page: " ++ ""].
Proof.
  intros Hk Hpage Hdb. switch_on Hk. rewrite Hpage, Hdb. reflexivity.
Qed.

Lemma convertBlock_textless (block : Block) (indent : nat) :
  (payload block ?. rich_text) = None ->
  ((type block = "paragraph" \/ type block = "code") -> convertBlock block indent = [])
  /\ (In (type block) nestingKinds ->
      convertBlock block indent = nestedLines block (indent + 1)).
Proof.
  intros Hr. split.
  - intros [Hk|Hk]; switch_on Hk; rewrite Hr; reflexivity.
  - intros Hin. simpl in Hin.
    repeat (destruct Hin as [Hk|Hin];
            [ symmetry in Hk; switch_on Hk; rewrite Hr;
              destruct (children block); reflexivity | ]).
    contradiction.
Qed.

End Defaults.

(** C6.  The converter returns on every page and every block forest:
    with one unit of fuel more than there are blocks, [convertToToon]
    yields its result.  Every field read falls back to a default, for
    every kind with a case:
    - a missing rich text renders as the empty string; a paragraph or a
      code block without it emits nothing, and a heading, list item,
      to-do, toggle, quote or callout without it emits the lines of its
      children only;
    - a missing URL renders as the empty string, for [video], [pdf],
      [link_preview] and [embed] as for [image], [file] and [bookmark],
      whatever their caption and name; a missing page id of a
      [link_to_page] likewise;
    - a missing callout icon is the default emoji;
    - a divider, a table of contents and a breadcrumb emit their one line
      whatever the block holds;
    - a block of a kind that reads fields and has none of them emits the
      placeholder line of its kind ([file[file]: ], [page: Untitled], ...).
    A block of a kind without a case emits the one line [[<kind>]]. *)
Theorem converter_total_with_defaults (page : Page) (blocks : list Block)
        (block : Block) (indent : nat) :
  let indentStr := repeatStr "  " indent in
  convertToToon_fuel (blocks_fuel blocks) page blocks = Some (convertToToon page blocks)
  /\ richTextToPlain None = ""
  /\ ((payload block ?. rich_text) = None -> renderedText block = "")
  /\ (forall kind label,
         In (kind, label) urlKinds -> type block = kind -> noUrl block ->
         convertBlock block indent = [indentStr ++ label ++ ""])
  /\ (type block = "callout" ->
      (payload block ?. icon ?. emoji) = None ->
      convertBlock block indent
      = (pushIf (renderedText block)
           (indentStr ++ "callout[💡]: " ++ escapeValue (renderedText block))%string
         ++ nestedLines block (indent + 1))%list)
  /\ (~ In (type block) recognizedKinds ->
      convertBlocks [block] indent = [indentStr ++ "[" ++ type block ++ "]"])
  /\ (type block = "image" -> noUrl block ->
      convertBlock block indent
      = [if truthy (captionText block)
         then indentStr ++ "image: " ++ escapeValue (captionText block)
         else indentStr ++ "image: " ++ ""])
  /\ (type block = "file" -> noUrl block ->
      convertBlock block indent
      = [indentStr ++ "file[" ++ orDefault (payload block ?. name) "file" ++ "]: " ++ ""])
  /\ (type block = "bookmark" -> noUrl block ->
      convertBlock block indent
      = [if truthy (captionText block)
         then indentStr ++ "bookmark: " ++ escapeValue (captionText block)
              ++ " (" ++ "" ++ ")"
         else indentStr ++ "bookmark: " ++ ""])
  /\ (type block = "link_to_page" ->
      (payload block ?. page_id) = None -> (payload block ?. database_id) = None ->
      convertBlock block indent = [indentStr ++ "link_to_page: " ++ ""])
  /\ (forall kind line,
         In (kind, line) fixedKinds -> type block = kind ->
         convertBlock block indent = [indentStr ++ line])
  /\ (forall kind line,
         In (kind, line) placeholders -> type block = kind -> fieldless block ->
         convertBlock block indent = [indentStr ++ line])
  /\ ((payload block ?. rich_text) = None ->
      (type block = "paragraph" \/ type block = "code") ->
      convertBlock block indent = [])
  /\ ((payload block ?. rich_text) = None ->
      In (type block) nestingKinds ->
      convertBlock block indent = nestedLines block (indent + 1)).
Proof.
  intros indentStr.
  repeat match goal with |- _ /\ _ => split end.
  - apply convertToToon_fuel_enough. unfold blocks_fuel. lia.
  - reflexivity.
  - intros H. unfold renderedText. rewrite H. reflexivity.
  - intros kind label. apply convertBlock_url.
  - apply convertBlock_callout_default.
  - apply convertBlocks_unknown.
  - apply convertBlock_image_noUrl.
  - apply convertBlock_file_noUrl.
  - apply convertBlock_bookmark_noUrl.
  - apply convertBlock_link_noId.
  - intros kind line. apply convertBlock_fixed.
  - intros kind line. apply convertBlock_placeholder.
  - intros Hr. apply (convertBlock_textless block indent Hr).
  - intros Hr. apply (convertBlock_textless block indent Hr).
Qed.

Lemma converter_total_with_defaults_witness :
  convertBlocks [bareBlock "exotic_widget"] 1 = ["  [exotic_widget]"]
  /\ convertBlock (bareBlock "video") 0 = ["video: "]
  /\ convertBlock (textBlock "callout" "Note" None) 0 = ["callout[💡]: Note"]
  /\ convertBlock (textBlock "image" "" None) 1 = ["  image: "]
  /\ convertBlock (mkBlock "file" (Some emptyPayload) None) 0 = ["file[file]: "]
  /\ convertBlock (bareBlock "bookmark") 0 = ["bookmark: "]
  /\ convertBlock (bareBlock "link_to_page") 0 = ["link_to_page: "]
  /\ convertBlock (bareBlock "divider") 2 = ["    ---"]
  /\ convertBlock (bareBlock "child_page") 0 = ["page: Untitled"]
  /\ convertBlock (bareBlock "code") 0 = []
  /\ convertBlock (mkBlock "quote" None (Some [textBlock "paragraph" "inside" None])) 0
     = ["  p: inside"].
Proof.
  repeat match goal with |- _ /\ _ => split end.
  - destruct (converter_total_with_defaults emptyTagsPage []
                (bareBlock "exotic_widget") 1) as (_ & _ & _ & _ & _ & Hu & _).
    rewrite Hu; [reflexivity|].
    simpl. intros H. repeat (destruct H as [H|H]; [discriminate|]). exact H.
  - destruct (converter_total_with_defaults emptyTagsPage []
                (bareBlock "video") 0) as (_ & _ & _ & Hv & _).
    rewrite (Hv "video" "video: "); [reflexivity| | |].
    + simpl. left. reflexivity.
    + reflexivity.
    + unfold noUrl. simpl. repeat split.
  - destruct (converter_total_with_defaults emptyTagsPage []
                (textBlock "callout" "Note" None) 0) as (_ & _ & _ & _ & Hc & _).
    rewrite (Hc eq_refl eq_refl). reflexivity.
  - destruct (converter_total_with_defaults emptyTagsPage []
                (textBlock "image" "" None) 1) as (_ & _ & _ & _ & _ & _ & Hi & _).
    rewrite Hi; [reflexivity|reflexivity|]. unfold noUrl. simpl. repeat split.
  - destruct (converter_total_with_defaults emptyTagsPage []
                (mkBlock "file" (Some emptyPayload) None) 0)
      as (_ & _ & _ & _ & _ & _ & _ & Hf & _).
    rewrite Hf; [reflexivity|reflexivity|]. unfold noUrl. simpl. repeat split.
  - destruct (converter_total_with_defaults emptyTagsPage []
                (bareBlock "bookmark") 0) as (_ & _ & _ & _ & _ & _ & _ & _ & Hb & _).
    rewrite Hb; [reflexivity|reflexivity|]. unfold noUrl. simpl. repeat split.
  - destruct (converter_total_with_defaults emptyTagsPage []
                (bareBlock "link_to_page") 0)
      as (_ & _ & _ & _ & _ & _ & _ & _ & _ & Hl & _).
    rewrite (Hl eq_refl eq_refl eq_refl). reflexivity.
  - destruct (converter_total_with_defaults emptyTagsPage []
                (bareBlock "divider") 2)
      as (_ & _ & _ & _ & _ & _ & _ & _ & _ & _ & Hd & _).
    rewrite (Hd "divider" "---"); [reflexivity| |reflexivity].
    simpl. left. reflexivity.
  - destruct (converter_total_with_defaults emptyTagsPage []
                (bareBlock "child_page") 0)
      as (_ & _ & _ & _ & _ & _ & _ & _ & _ & _ & _ & Hp & _).
    rewrite (Hp "child_page" "page: Untitled"); [reflexivity| |reflexivity|].
    + simpl. do 8 right. left. reflexivity.
    + left. reflexivity.
  - destruct (converter_total_with_defaults emptyTagsPage []
                (bareBlock "code") 0)
      as (_ & _ & _ & _ & _ & _ & _ & _ & _ & _ & _ & _ & He & _).
    apply He; [reflexivity|]. right. reflexivity.
  - destruct (converter_total_with_defaults emptyTagsPage []
                (mkBlock "quote" None (Some [textBlock "paragraph" "inside" None])) 0)
      as (_ & _ & _ & _ & _ & _ & _ & _ & _ & _ & _ & _ & _ & Hn).
    rewrite Hn; [reflexivity|reflexivity|]. simpl. do 7 right. left. reflexivity.
Defined.

(** * Further properties of the converter *)

(** ** Depth and composition *)

(** X1.  Converting a sibling sequence [k] levels deeper changes nothing
    but the indentation: every line gets [k] more indents.  In particular
    every line emitted at depth [d] starts with [d] indents. *)
Theorem convertBlocks_deeper (blocks : list Block) (k d : nat) :
  convertBlocks blocks (k + d) = map (append (repeatStr "  " k)) (convertBlocks blocks d)
  /\ Forall (indentedAt d) (convertBlocks blocks d).
Proof.
  split.
  - apply (convertBlocks_shift k (blocks_weight blocks)). lia.
  - replace d with (d + 0) at 2 by lia.
    rewrite (convertBlocks_shift d (blocks_weight blocks) blocks 0 (le_n _)).
    apply Forall_forall. intros line Hin. apply in_map_iff in Hin.
    destruct Hin as (body & <- & _). exists body. reflexivity.
Qed.

(** X2.  The conversion of a sibling sequence is the concatenation of the
    conversions of two parts of it, provided the cut does not separate two
    list items of the same kind. *)
Theorem convertBlocks_concat (before after : list Block) (indent : nat) :
  boundary before after ->
  convertBlocks (before ++ after) indent
  = (convertBlocks before indent ++ convertBlocks after indent)%list.
Proof. apply (convertBlocks_app indent after (length before) before (le_n _)). Qed.

Lemma convertBlocks_concat_witness :
  convertBlocks ([textBlock "bulleted_list_item" "a" None]
                 ++ [textBlock "numbered_list_item" "b" None]) 0
  = ["- a"; "# b"].
Proof.
  rewrite convertBlocks_concat.
  - reflexivity.
  - intros pre x y post Hpre Hpost _ Hxy.
    destruct pre as [|p0 [|p1 pre]]; simpl in Hpre; try discriminate.
    injection Hpre as <-. injection Hpost as <- _. discriminate.
Defined.

Section Separation.

Lemma nestedLines_childless (block : Block) (depth : nat) :
  hasChildren block = false -> nestedLines block depth = [].
Proof.
  unfold hasChildren, nestedLines.
  destruct (children block) as [[|c cs]|]; [reflexivity|discriminate|reflexivity].
Qed.

Lemma pushIf_length (text line : string) : length (pushIf text line) <= 1.
Proof. unfold pushIf. destruct (truthy text); simpl; lia. Qed.

(** A block that is not a list item separates its siblings. *)
Lemma convertBlocks_around (pre post : list Block) (block : Block) (indent : nat) :
  isListItem block = false ->
  convertBlocks (pre ++ block :: post) indent
  = (convertBlocks pre indent ++ convertBlocks [block] indent
     ++ convertBlocks post indent)%list.
Proof.
  intros Hl.
  rewrite (convertBlocks_app indent (block :: post) (length pre) pre (le_n _)).
  - f_equal.
    apply (convertBlocks_app indent post 1 [block] (le_n _)).
    intros pre' x y post' Hpre _ Hx _.
    destruct pre' as [|p0 [|p1 pre']]; simpl in Hpre; try discriminate.
    injection Hpre as <-. congruence.
  - intros pre' x y post' _ Hpost Hx Hxy. injection Hpost as <- _.
    rewrite (isListItem_same_type x block Hxy) in Hx. congruence.
Qed.

Lemma convertBlocks_single (block : Block) (indent : nat) :
  isListItem block = false ->
  String.eqb (type block) "table" = false ->
  convertBlocks [block] indent = convertBlock block indent.
Proof.
  intros Hl Ht. rewrite (convertBlocks_regular block [] indent Hl Ht).
  rewrite convertBlocks_nil. apply app_nil_r.
Qed.

Lemma kind_not_listItem (block : Block) (kind : string) :
  type block = kind -> ~ In kind listKinds -> isListItem block = false.
Proof.
  intros Hk Hnot. destruct (isListItem block) eqn:Hl; [|reflexivity].
  exfalso. apply Hnot. rewrite <- Hk. apply isListItem_kind. exact Hl.
Qed.

End Separation.

(** X3.  Grouping depends on the neighbours: two childless list items of
    the same kind give three lines when they are converted side by side (a
    header and one line each), and at most two when each is converted on
    its own, so [convertBlocks] does not distribute over a cut inside a
    run. *)
Theorem grouping_depends_on_neighbours (a b : Block) (kind : string) (indent : nat) :
  In kind listKinds ->
  type a = kind -> type b = kind ->
  hasChildren a = false -> hasChildren b = false ->
  length (convertBlocks [a; b] indent) = 3
  /\ length (convertBlocks [a] indent ++ convertBlocks [b] indent) <= 2.
Proof.
  intros Hkind Ha Hb Hca Hcb.
  assert (Hafter : forall (y : Block) post, @nil Block = y :: post -> type y <> kind)
    by (intros y post H; discriminate).
  assert (Hone : forall x, type x = kind -> hasChildren x = false ->
                           length (convertBlocks [x] indent) <= 1).
  { intros x Hx Hcx.
    pose proof (convertBlocks_run [x] [] kind indent Hkind) as Hr.
    simpl app in Hr. rewrite Hr; [|discriminate|repeat constructor; exact Hx|exact Hafter].
    rewrite convertBlocks_nil, app_nil_r.
    rewrite formatListItems_dispatch by (right; simpl; lia).
    simpl. rewrite app_nil_r.
    rewrite convertBlock_listItem by (rewrite Hx; exact Hkind).
    rewrite (nestedLines_childless x (indent + 1) Hcx), app_nil_r.
    apply pushIf_length. }
  split.
  - pose proof (convertBlocks_run [a; b] [] kind indent Hkind) as Hr.
    simpl app in Hr.
    rewrite Hr; [|discriminate|repeat constructor; assumption|exact Hafter].
    rewrite convertBlocks_nil, app_nil_r.
    rewrite (formatListItems_grouped kind [a; b]).
    + reflexivity.
    + repeat constructor; assumption.
    + simpl. rewrite Hca, Hcb. reflexivity.
    + simpl. lia.
  - rewrite length_app.
    pose proof (Hone a Ha Hca). pose proof (Hone b Hb Hcb). lia.
Qed.

Lemma grouping_depends_on_neighbours_witness :
  length (convertBlocks [textBlock "to_do" "a" None; textBlock "to_do" "b" None] 0) = 3
  /\ length (convertBlocks [textBlock "to_do" "a" None] 0
             ++ convertBlocks [textBlock "to_do" "b" None] 0) <= 2.
Proof.
  apply (grouping_depends_on_neighbours _ _ "to_do" 0); try reflexivity.
  simpl. tauto.
Defined.

(** X4.  A [synced_block] is transparent: among its siblings it emits
    exactly the lines of its children, at its own depth, and no line of its
    own; the siblings before and after it are converted as if it were a
    separator. *)
Theorem synced_block_transparent (pre post : list Block) (block : Block) (indent : nat) :
  type block = "synced_block" ->
  convertBlocks (pre ++ block :: post) indent
  = (convertBlocks pre indent ++ nestedLines block indent
     ++ convertBlocks post indent)%list.
Proof.
  intros Hk.
  assert (Hl : isListItem block = false).
  { apply (kind_not_listItem block "synced_block" Hk).
    simpl. intros H. repeat (destruct H as [H|H]; [discriminate|]). exact H. }
  rewrite (convertBlocks_around pre post block indent Hl). do 2 f_equal.
  rewrite convertBlocks_single by (try exact Hl; rewrite Hk; reflexivity).
  switch_on Hk. destruct (children block); reflexivity.
Qed.

Lemma synced_block_transparent_witness :
  convertBlocks
    ([textBlock "bulleted_list_item" "a" None]
     ++ mkBlock "synced_block" None (Some [textBlock "bulleted_list_item" "b" None])
     :: [textBlock "bulleted_list_item" "c" None]) 1
  = ["  - a"; "  - b"; "  - c"].
Proof.
  rewrite synced_block_transparent; reflexivity.
Defined.

(** X5.  A [column_list] with a child sequence emits the line [columns:]
    and then, one level deeper, the children of each of its columns in
    order; a column contributes nothing of its own, and a column without
    children nothing at all.  The header is there even when the sequence of
    columns is empty; without a child sequence the block emits nothing. *)
Theorem column_list_flattens (pre post : list Block) (block : Block) (indent : nat) :
  type block = "column_list" ->
  convertBlocks (pre ++ block :: post) indent
  = (convertBlocks pre indent
     ++ match children block with
        | Some columns =>
            (repeatStr "  " indent ++ "columns:")%string
            :: flat_map (fun col => nestedLines col (indent + 1)) columns
        | None => []
        end
     ++ convertBlocks post indent)%list.
Proof.
  intros Hk.
  assert (Hl : isListItem block = false).
  { apply (kind_not_listItem block "column_list" Hk).
    simpl. intros H. repeat (destruct H as [H|H]; [discriminate|]). exact H. }
  rewrite (convertBlocks_around pre post block indent Hl). do 2 f_equal.
  rewrite convertBlocks_single by (try exact Hl; rewrite Hk; reflexivity).
  switch_on Hk. destruct (children block) as [columns|]; [|reflexivity].
  rewrite (map_ext _ (fun col => Some (nestedLines col (indent + 1)))).
  - rewrite concatAll_map_Some. reflexivity.
  - intros col. unfold nestedLines. destruct (children col); reflexivity.
Qed.

Lemma column_list_flattens_witness :
  convertBlocks
    ([] ++ mkBlock "column_list" None
             (Some [mkBlock "column" None (Some [textBlock "paragraph" "left" None]);
                    mkBlock "column" None None;
                    mkBlock "column" None (Some [textBlock "paragraph" "right" None])])
        :: []) 0
  = ["columns:"; "  p: left"; "  p: right"].
Proof.
  rewrite column_list_flattens; reflexivity.
Defined.

(** X6.  Sixteen kinds never look at their children, and neither does a
    block of a kind without a case: whatever child sequence such a block
    carries, the output is the one of the same block without children.
    The children of a paragraph, a code block, an image, a bookmark, ...
    are dropped from the document. *)
Theorem leaf_blocks_ignore_children (pre post : list Block) (kind : string)
        (content : option Payload) (nested : option (list Block)) (indent : nat) :
  In kind leafKinds \/ ~ In kind recognizedKinds ->
  convertBlocks (pre ++ mkBlock kind content nested :: post) indent
  = convertBlocks (pre ++ mkBlock kind content None :: post) indent.
Proof.
  intros Hkind.
  assert (Hnot : ~ In kind listKinds /\ String.eqb kind "table" = false).
  { destruct Hkind as [Hleaf|Hunknown].
    - simpl in Hleaf.
      repeat (destruct Hleaf as [<-|Hleaf];
              [ split; [simpl; intros H; repeat (destruct H as [H|H]; [discriminate|]);
                        exact H | reflexivity] | ]).
      contradiction.
    - split.
      + intros H. apply Hunknown. simpl in H.
        destruct H as [<-|[<-|[<-|[]]]]; in_list.
      + destruct (String.eqb_spec kind "table") as [->|_]; [|reflexivity].
        exfalso. apply Hunknown. in_list. }
  destruct Hnot as [Hnl Hnt].
  assert (Hl : forall n, isListItem (mkBlock kind content n) = false).
  { intros n. apply (kind_not_listItem (mkBlock kind content n) kind eq_refl Hnl). }
  rewrite !convertBlocks_around by apply Hl.
  do 2 f_equal.
  rewrite !convertBlocks_single by (first [apply Hl | exact Hnt]).
  destruct Hkind as [Hleaf|Hunknown].
  - simpl in Hleaf.
    repeat (destruct Hleaf as [<-|Hleaf]; [reflexivity|]).
    contradiction.
  - rewrite !convertBlock_unknown by exact Hunknown. reflexivity.
Qed.

Lemma leaf_blocks_ignore_children_witness :
  convertBlocks ([] ++ mkBlock "image" None (Some [textBlock "paragraph" "legend" None])
                    :: []) 0
  = ["image: "].
Proof.
  rewrite leaf_blocks_ignore_children.
  - reflexivity.
  - left. in_list.
Defined.

(** ** Code blocks, tables, runs, rich text *)

Section Pieces.

Lemma append_nil_r (s : string) : s ++ "" = s.
Proof. induction s as [|c s IH]; simpl; [reflexivity|]. rewrite IH. reflexivity. Qed.

Lemma join_cons (sep piece : string) (pieces : list string) :
  pieces <> [] -> join sep (piece :: pieces) = piece ++ sep ++ join sep pieces.
Proof. destruct pieces; [congruence|reflexivity]. Qed.

(** Joining the pieces of a split with line feeds gives the string back. *)
Lemma split_newline_clean (s : string) : Forall oneLine (split_newline s).
Proof.
  induction s as [|c rest IH]; simpl; [repeat constructor|].
  destruct (Ascii.eqb c newline) eqn:Ec.
  - constructor; [reflexivity|exact IH].
  - destruct (split_newline rest) as [|piece pieces]; [repeat constructor|].
    + unfold oneLine. simpl. rewrite Ec. reflexivity.
    + inversion IH as [|? ? Hp Hrest]; subst. constructor; [|exact Hrest].
      unfold oneLine in *. simpl. rewrite Ec. exact Hp.
Qed.

Lemma join_split_newline (s : string) : join LF (split_newline s) = s.
Proof.
  induction s as [|c rest IH]; [reflexivity|]. simpl split_newline.
  pose proof (split_newline_not_nil rest) as Hne.
  destruct (Ascii.eqb_spec c newline) as [->|Hc].
  - rewrite join_cons by exact Hne. rewrite IH. reflexivity.
  - destruct (split_newline rest) as [|piece pieces]; [congruence|].
    destruct pieces as [|p ps].
    + simpl in *. rewrite IH. reflexivity.
    + rewrite join_cons by discriminate.
      rewrite join_cons in IH by discriminate.
      simpl. rewrite <- IH. reflexivity.
Qed.

Lemma join_empty_app (a b : list string) : join "" (a ++ b) = join "" a ++ join "" b.
Proof.
  induction a as [|x a IH]; [reflexivity|].
  assert (Hcons : forall l, join "" (x :: l) = x ++ join "" l).
  { intros [|y l]; [simpl; rewrite append_nil_r; reflexivity|reflexivity]. }
  simpl app. rewrite !Hcons, IH, append_assoc. reflexivity.
Qed.

Lemma richTextToPlain_plainText (s : string) : richTextToPlain (Some (plainText s)) = s.
Proof. destruct s; reflexivity. Qed.

Lemma collectSameType_split (kind : string) (blocks : list Block) :
  blocks = (collectSameType kind blocks
            ++ skipn (length (collectSameType kind blocks)) blocks)%list
  /\ Forall (fun b => type b = kind) (collectSameType kind blocks)
  /\ forall y post,
      skipn (length (collectSameType kind blocks)) blocks = y :: post -> type y <> kind.
Proof.
  induction blocks as [|b rest (IHsplit & IHall & IHnext)]; simpl.
  - repeat split; [constructor|discriminate].
  - destruct (String.eqb_spec (type b) kind) as [E|E]; simpl.
    + repeat split.
      * f_equal. exact IHsplit.
      * constructor; assumption.
      * exact IHnext.
    + repeat split; [constructor|].
      intros y post H. injection H as <- _. exact E.
Qed.

Lemma rowCells_rowBlock (cellTexts : list string) : rowCells (rowBlock cellTexts) = cellTexts.
Proof.
  unfold rowCells, rowBlock, payload_at. simpl.
  rewrite map_map. rewrite (map_ext _ (fun s => s)); [apply map_id|].
  intros s. apply richTextToPlain_plainText.
Qed.

Lemma formatTable_plain (row : Block) (rows : list Block) (indentStr : string) :
  formatTable (tableBlock false (row :: rows)) indentStr
  = (indentStr ++ "table[" ++ of_nat (length (row :: rows)) ++ "]:")
    :: map (rowLine indentStr) (row :: rows).
Proof. reflexivity. Qed.

End Pieces.

(** X7.  A code block with text emits its header [code[<language>]:]
    ([plain] when the language is missing or empty) and then the lines of
    its text, each two spaces deeper and otherwise untouched.  The lines
    are the pieces between the line feeds of the text: none of them holds a
    line feed, there is at least one, and joining them with line feeds
    gives the text back, so code is neither escaped nor truncated.  A code
    block without text emits nothing, not even its header. *)
Theorem code_block_verbatim (block : Block) (indent : nat) :
  type block = "code" ->
  let indentStr := repeatStr "  " indent in
  let text := renderedText block in
  (text = "" -> convertBlocks [block] indent = [])
  /\ (text <> "" ->
      convertBlocks [block] indent
      = (indentStr ++ "code[" ++ orDefault (payload block ?. language) "plain" ++ "]:")
        :: map (fun piece => indentStr ++ "  " ++ piece) (split_newline text))
  /\ join LF (split_newline text) = text
  /\ Forall oneLine (split_newline text)
  /\ split_newline text <> [].
Proof.
  intros Hk indentStr text.
  assert (Hl : isListItem block = false).
  { apply (kind_not_listItem block "code" Hk).
    simpl. intros H. repeat (destruct H as [H|H]; [discriminate|]). exact H. }
  rewrite convertBlocks_single by (try exact Hl; rewrite Hk; reflexivity).
  switch_on Hk. fold (renderedText block). fold text.
  split; [|split; [|split; [|split]]].
  - intros ->. reflexivity.
  - intros Hne. destruct text; [congruence|reflexivity].
  - apply join_split_newline.
  - apply split_newline_clean.
  - apply split_newline_not_nil.
Qed.

Lemma code_block_verbatim_witness :
  convertBlocks [textBlock "code" ("let x, y" ++ LF ++ "  x: y") None] 1
  = ["  code[plain]:"; "    let x, y"; "      x: y"].
Proof.
  destruct (code_block_verbatim
              (textBlock "code" ("let x, y" ++ LF ++ "  x: y") None) 1 eq_refl)
    as (_ & Hlines & _).
  rewrite Hlines; [reflexivity|discriminate].
Defined.

(** X8.  The count that a table announces is the number of row lines that
    follow its header line, for every block and whatever its rows hold. *)
Theorem formatTable_count (block : Block) (indentStr : string) :
  exists n headerLine rowLines,
    formatTable block indentStr = headerLine :: rowLines
    /\ length rowLines = n
    /\ (headerLine = indentStr ++ "table[" ++ of_nat n ++ "]:"
        \/ exists headers,
            headerLine = indentStr ++ "table[" ++ of_nat n ++ "]{" ++ headers ++ "}:").
Proof.
  unfold formatTable. destruct (children block) as [[|headerRow others]|].
  - exists 0, (indentStr ++ "table[0]:"), []. repeat split. left. reflexivity.
  - cbv zeta.
    set (flag := isTrue (payload_at block "table" ?. has_column_header)).
    set (dataRows := if flag then others else headerRow :: others).
    set (headers := if flag then rowCells headerRow else []).
    eexists (length dataRows), _, _. split; [reflexivity|].
    split; [apply length_map|].
    destruct (Nat.ltb 0 (length headers)).
    + right. eexists. reflexivity.
    + left. reflexivity.
  - exists 0, (indentStr ++ "table[0]:"), []. repeat split. left. reflexivity.
Qed.

(** X9.  Commas inside a cell are not escaped: a row with the single cell
    [a,b] and a row with the two cells [a] and [b] give the same line, so
    two tables with different columns can give the same output. *)
Theorem table_commas_not_escaped (a b : string) (indent : nat) :
  includes_newline a = false ->
  includes_newline b = false ->
  convertBlocks [tableBlock false [rowBlock [a ++ "," ++ b]]] indent
  = convertBlocks [tableBlock false [rowBlock [a; b]]] indent.
Proof.
  intros Ha Hb. rewrite !convertBlocks_single_table by reflexivity.
  rewrite !formatTable_plain. f_equal. unfold rowLine.
  rewrite !map_cons. cbv beta. rewrite !rowCells_rowBlock. rewrite !map_cons.
  rewrite !escapeValue_unchanged; try assumption.
  - reflexivity.
  - rewrite includes_newline_app, Ha. simpl. exact Hb.
Qed.

Lemma table_commas_not_escaped_witness :
  convertBlocks [tableBlock false [rowBlock ["Doe, Jane"]]] 0
  = convertBlocks [tableBlock false [rowBlock ["Doe"; " Jane"]]] 0.
Proof.
  apply (table_commas_not_escaped "Doe" " Jane" 0); reflexivity.
Defined.

(** X10.  [collectListItems] returns the longest prefix of the remaining
    blocks whose blocks have the type of the first one: the blocks are that
    prefix followed by the rest, the prefix is not empty (the loop of
    [convertBlocks] always advances), and the block after it, if any, has
    another type. *)
Theorem collectListItems_longest_prefix (first : Block) (rest : list Block) :
  let blocks := first :: rest in
  let run := collectListItems blocks in
  blocks = (run ++ skipn (length run) blocks)%list
  /\ 1 <= length run
  /\ Forall (fun b => type b = type first) run
  /\ forall y post, skipn (length run) blocks = y :: post -> type y <> type first.
Proof.
  cbv zeta. unfold collectListItems.
  destruct (collectSameType_split (type first) (first :: rest)) as (Hsplit & Hall & Hnext).
  repeat split; try assumption.
  simpl. rewrite String.eqb_refl. simpl. lia.
Qed.

(** X11.  [richTextToPlain] turns concatenation of run lists into
    concatenation of texts, and a fragment without text, or with an empty
    one, contributes nothing; a missing run list and an empty one both
    render as the empty string. *)
Theorem richTextToPlain_concat (a b : RichText) :
  richTextToPlain (Some (a ++ b)%list) = richTextToPlain (Some a) ++ richTextToPlain (Some b)
  /\ richTextToPlain (Some (a ++ {| plain_text := None |} :: b)%list) = richTextToPlain (Some (a ++ b)%list)
  /\ richTextToPlain (Some (a ++ {| plain_text := Some "" |} :: b)%list)
     = richTextToPlain (Some (a ++ b)%list)
  /\ richTextToPlain None = richTextToPlain (Some []).
Proof.
  assert (Happ : forall x y : RichText,
             richTextToPlain (Some (x ++ y)%list)
             = richTextToPlain (Some x) ++ richTextToPlain (Some y)).
  { intros x y. unfold richTextToPlain. rewrite map_app. apply join_empty_app. }
  split; [apply Happ|]. split; [|split; [|reflexivity]].
  - rewrite !Happ. f_equal.
    apply (Happ [ {| plain_text := None |} ] b).
  - rewrite !Happ. f_equal.
    apply (Happ [ {| plain_text := Some "" |} ] b).
Qed.

(** ** One block line, one output line *)

Section OneLine.

Lemma repeatStr_clean (depth : nat) : includes_newline (repeatStr "  " depth) = false.
Proof. induction depth as [|d IH]; [reflexivity|exact IH]. Qed.

Lemma string_of_uint_clean (u : Decimal.uint) :
  includes_newline (NilEmpty.string_of_uint u) = false.
Proof. induction u; simpl; assumption || reflexivity. Qed.

Lemma of_nat_clean (n : nat) : includes_newline (of_nat n) = false.
Proof. apply string_of_uint_clean. Qed.

Lemma join_clean (sep : string) (pieces : list string) :
  includes_newline sep = false ->
  Forall oneLine pieces ->
  includes_newline (join sep pieces) = false.
Proof.
  intros Hsep Hall. induction Hall as [|piece pieces Hp Hall IH]; [reflexivity|].
  destruct pieces as [|q qs]; [exact Hp|].
  rewrite join_cons by discriminate.
  rewrite !includes_newline_app, Hp, Hsep, IH. reflexivity.
Qed.

Lemma orDefault_clean (field : option string) (fallback : string) :
  cleanText field = true ->
  includes_newline fallback = false ->
  includes_newline (orDefault field fallback) = false.
Proof.
  unfold orDefault, cleanText. destruct field as [s|]; [|trivial].
  intros Hs Hf. destruct (truthy s); [|exact Hf].
  destruct (includes_newline s); [discriminate|reflexivity].
Qed.

Lemma map_escape_clean (texts : list string) : Forall oneLine (map escapeValue texts).
Proof.
  induction texts as [|t texts IH]; simpl; constructor; [apply escapeValue_clean|exact IH].
Qed.

Lemma Forall_oneLine_prefix (prefix : string) (lines : list string) :
  includes_newline prefix = false ->
  Forall oneLine lines ->
  Forall oneLine (map (fun l => prefix ++ l) lines).
Proof.
  intros Hp Hall. induction Hall as [|l lines Hl Hall IH]; simpl; constructor; [|exact IH].
  unfold oneLine in *. rewrite includes_newline_app, Hp, Hl. reflexivity.
Qed.

Lemma formatTable_clean (block : Block) (indentStr : string) :
  includes_newline indentStr = false ->
  Forall oneLine (formatTable block indentStr).
Proof.
  intros Hi. unfold formatTable.
  assert (Hrows : forall rows,
             Forall oneLine
               (map (fun row => indentStr ++ "  " ++ join "," (map escapeValue (rowCells row)))
                  rows)).
  { intros rows. induction rows as [|row rows IH]; cbn [map]; constructor; [|exact IH].
    unfold oneLine. rewrite !includes_newline_app, Hi.
    rewrite (join_clean "," _ eq_refl (map_escape_clean _)). reflexivity. }
  destruct (children block) as [[|headerRow others]|].
  - constructor; [|constructor]. unfold oneLine.
    rewrite includes_newline_app, Hi. reflexivity.
  - cbv zeta. constructor; [|apply Hrows].
    unfold oneLine. destruct (Nat.ltb 0 _);
      rewrite !includes_newline_app, Hi, ?of_nat_clean;
      rewrite ?(join_clean "," _ eq_refl (map_escape_clean _)); reflexivity.
  - constructor; [|constructor]. unfold oneLine.
    rewrite includes_newline_app, Hi. reflexivity.
Qed.

End OneLine.

(** Solves [includes_newline _ = false] for a line assembled from clean
    pieces; [Hf] gives the clean fields of the block at every key. *)
Ltac one_line Hf :=
  unfold oneLine;
  repeat first [rewrite includes_newline_app | progress simpl includes_newline];
  repeat match goal with |- orb _ _ = false => apply orb_false_intro end;
  try first
      [ reflexivity
      | assumption
      | apply escapeValue_clean
      | apply of_nat_clean
      | apply repeatStr_clean
      | match goal with
        | |- includes_newline (if ?c then _ else _) = false => destruct c; reflexivity
        end
      | apply orDefault_clean;
        [ match goal with
          | |- cleanText (chain (chain (payload_at _ ?k) _) _) = true =>
              destruct (Hf k) as (? & ? & ? & ? & ? & ? & ? & ?); assumption
          | |- cleanText (chain (payload_at _ ?k) _) = true =>
              destruct (Hf k) as (? & ? & ? & ? & ? & ? & ? & ?); assumption
          end
        | one_line Hf ] ].

Section OneLineBlocks.

Lemma blockClean_type (block : Block) :
  blockClean block = true -> includes_newline (type block) = false.
Proof.
  destruct block as [kind content nested]. simpl. intros H.
  apply andb_prop in H. destruct H as [H _]. apply andb_prop in H. destruct H as [H _].
  destruct (includes_newline kind); [discriminate|reflexivity].
Qed.

Lemma blockClean_fields (block : Block) :
  blockClean block = true -> forall key, fieldsClean (payload_at block key).
Proof.
  destruct block as [kind content nested]. simpl. intros H key.
  apply andb_prop in H. destruct H as [H _]. apply andb_prop in H. destruct H as [_ H].
  unfold payload_at. simpl. destruct (String.eqb kind key); [|repeat split].
  destruct content as [c|]; [|repeat split].
  unfold payloadClean in H.
  repeat (apply andb_prop in H; destruct H as [H ?]).
  repeat split; assumption.
Qed.

Lemma blockClean_children (block : Block) (blocks : list Block) :
  blockClean block = true -> children block = Some blocks ->
  forallb blockClean blocks = true.
Proof.
  destruct block as [kind content nested]. simpl. intros H ->.
  apply andb_prop in H. destruct H as [_ H]. exact H.
Qed.

Lemma blockClean_nested (block : Block) (blocks : list Block) :
  blockClean block = true -> nested_in block blocks -> forallb blockClean blocks = true.
Proof.
  intros Hc [Hn|(columns & col & Hcols & Hin & Hn)].
  - exact (blockClean_children block blocks Hc Hn).
  - pose proof (blockClean_children block columns Hc Hcols) as Hall.
    rewrite forallb_forall in Hall.
    exact (blockClean_children col blocks (Hall col Hin) Hn).
Qed.

Variable rec : list Block -> nat -> option (list string).

Lemma pushIf_clean (text line : string) :
  includes_newline line = false -> Forall oneLine (pushIf text line).
Proof. intros H. unfold pushIf. destruct (truthy text); repeat constructor. exact H. Qed.

Lemma childLines_clean (block : Block) (depth : nat) (lines : list string) :
  (forall cs d r, nested_in block cs -> rec cs d = Some r -> Forall oneLine r) ->
  childLines rec block depth = Some lines -> Forall oneLine lines.
Proof.
  intros Hrec. unfold childLines. destruct (children block) as [cs|] eqn:E.
  - apply Hrec. left. exact E.
  - intros H. injection H as <-. constructor.
Qed.

Lemma textThenChildren_clean (block : Block) (indent : nat) (text line : string)
      (lines : list string) :
  includes_newline line = false ->
  (forall cs d r, nested_in block cs -> rec cs d = Some r -> Forall oneLine r) ->
  textThenChildren rec block indent text line = Some lines -> Forall oneLine lines.
Proof.
  intros Hline Hrec. unfold textThenChildren.
  destruct (childLines rec block (indent + 1)) as [nested|] eqn:E; [|discriminate].
  intros H. injection H as <-. apply Forall_app. split.
  - apply pushIf_clean, Hline.
  - exact (childLines_clean block (indent + 1) nested Hrec E).
Qed.

Lemma concatAll_clean (A : Type) (f : A -> option (list string)) (l : list A) :
  (forall x r, In x l -> f x = Some r -> Forall oneLine r) ->
  forall lines, concatAll (map f l) = Some lines -> Forall oneLine lines.
Proof.
  induction l as [|x rest IH]; simpl; intros Hf lines H.
  - injection H as <-. constructor.
  - destruct (f x) as [r|] eqn:Ex; [|discriminate].
    destruct (concatAll (map f rest)) as [more|] eqn:Er; [|discriminate].
    injection H as <-. apply Forall_app. split.
    + exact (Hf x r (or_introl eq_refl) Ex).
    + apply IH; [|reflexivity]. intros y r' Hy. apply Hf. right. exact Hy.
Qed.

Lemma columns_clean (block : Block) (depth : nat) (header : string) (lines : list string) :
  includes_newline header = false ->
  (forall cs d r, nested_in block cs -> rec cs d = Some r -> Forall oneLine r) ->
  match children block with
  | Some columns =>
      nested <- concatAll (map (fun col => childLines rec col depth) columns) ;;
      Some (header :: nested)
  | None => Some []
  end = Some lines ->
  Forall oneLine lines.
Proof.
  intros Hh Hrec. destruct (children block) as [columns|] eqn:Ec.
  - destruct (concatAll _) as [nested|] eqn:E; [|discriminate].
    intros H. injection H as <-. constructor; [exact Hh|].
    apply (concatAll_clean _ (fun col => childLines rec col depth) columns); [|exact E].
    intros col r Hin. unfold childLines. destruct (children col) as [cs|] eqn:En.
    + apply Hrec. right. exists columns, col. auto.
    + intros H. injection H as <-. constructor.
  - intros H. injection H as <-. constructor.
Qed.

Lemma code_lines_clean (indentStr text : string) :
  includes_newline indentStr = false ->
  Forall oneLine (map (fun codeLine => indentStr ++ "  " ++ codeLine) (split_newline text)).
Proof.
  intros Hi. pose proof (split_newline_clean text) as Hall.
  induction Hall as [|l ls Hl Hall IH]; cbn [map]; constructor; [|exact IH].
  unfold oneLine in *. rewrite !includes_newline_app, Hi, Hl. reflexivity.
Qed.

Lemma convertBlock_with_clean (block : Block) (indent : nat) (lines : list string) :
  blockClean block = true ->
  (forall cs d r, nested_in block cs -> rec cs d = Some r -> Forall oneLine r) ->
  convertBlock_with rec block indent = Some lines -> Forall oneLine lines.
Proof.
  intros Hc Hrec.
  pose proof (blockClean_type block Hc) as Ht.
  pose proof (blockClean_fields block Hc) as Hf.
  unfold convertBlock_with. cbv zeta.
  repeat (destruct (String.eqb (type block) _);
          [ first
              [ solve [intros H; injection H as <-;
                       first [apply pushIf_clean | repeat constructor]; one_line Hf]
              | solve [apply textThenChildren_clean; [one_line Hf|exact Hrec]]
              | solve [apply (childLines_clean _ _ _ Hrec)]
              | solve [apply columns_clean; [one_line Hf|exact Hrec]]
              | solve [destruct (truthy _); intros H; injection H as <-;
                       repeat constructor; one_line Hf]
              | solve [destruct (truthy _); intros H; injection H as <-;
                       [|constructor];
                       constructor; [one_line Hf|];
                       apply code_lines_clean, repeatStr_clean] ] | ]).
  intros H. injection H as <-. repeat constructor. one_line Hf.
Qed.

End OneLineBlocks.

Section OneLineSequences.

Lemma Some_eq (A : Type) (a b : A) : Some a = Some b -> a = b.
Proof. congruence. Qed.

Lemma formatListItems_with_clean (rec : list Block -> nat -> option (list string))
      (items : list Block) (indentStr : string) (lines : list string) :
  includes_newline indentStr = false ->
  forallb blockClean items = true ->
  (forall item cs d r, In item items -> nested_in item cs -> rec cs d = Some r ->
                       Forall oneLine r) ->
  formatListItems_with rec items indentStr = Some lines -> Forall oneLine lines.
Proof.
  intros Hi Hc Hrec. unfold formatListItems_with.
  destruct items as [|first rest]; [intros H; injection H as <-; constructor|].
  cbv zeta.
  destruct (negb (someHasChildren (first :: rest)) && Nat.leb 2 (length (first :: rest))).
  - intros H. apply Some_eq in H. rewrite <- H. constructor.
    + unfold oneLine.
      destruct (String.eqb (type first) "bulleted_list_item");
        [|destruct (String.eqb (type first) "numbered_list_item")];
        one_line I.
    + apply Forall_forall. intros line Hin. apply in_map_iff in Hin.
      destruct Hin as (item & <- & _).
      destruct (String.eqb (type first) "to_do"); one_line I.
  - apply concatAll_clean. intros item r Hin.
    destruct (convertBlock_with rec item 0) as [ls|] eqn:E; [|discriminate].
    intros H. injection H as <-. apply Forall_oneLine_prefix; [exact Hi|].
    rewrite forallb_forall in Hc.
    apply (convertBlock_with_clean rec item 0 ls (Hc item Hin)); [|exact E].
    intros cs d r. apply Hrec. exact Hin.
Qed.

Lemma forallb_skipn (A : Type) (f : A -> bool) (k : nat) (l : list A) :
  forallb f l = true -> forallb f (skipn k l) = true.
Proof.
  rewrite !forallb_forall. intros H x Hin. apply H.
  rewrite <- (firstn_skipn k l). apply in_or_app. right. exact Hin.
Qed.

Lemma convertBlocks_fuel_clean (fuel : nat) :
  forall blocks indent lines,
    forallb blockClean blocks = true ->
    convertBlocks_fuel fuel blocks indent = Some lines ->
    Forall oneLine lines.
Proof.
  induction fuel as [|fuel IH]; intros blocks indent lines Hc H; [discriminate|].
  destruct blocks as [|block rest]; [injection H as <-; constructor|].
  assert (Hrec : forall item cs d r,
             In item (block :: rest) -> nested_in item cs ->
             convertBlocks_fuel fuel cs d = Some r -> Forall oneLine r).
  { intros item cs d r Hin Hn. apply IH.
    rewrite forallb_forall in Hc. exact (blockClean_nested item cs (Hc item Hin) Hn). }
  pose proof (repeatStr_clean indent) as Hi.
  cbn [convertBlocks_fuel] in H. destruct (isListItem block).
  - destruct (formatListItems_with _ _ _) as [group|] eqn:Eg; [|discriminate].
    destruct (convertBlocks_fuel fuel (skipn _ _) indent) as [more|] eqn:Em; [|discriminate].
    injection H as <-. apply Forall_app. split.
    + apply (formatListItems_with_clean _ _ _ _ Hi) in Eg; [exact Eg| |].
      * rewrite forallb_forall in Hc |- *. intros item Hin. apply Hc.
        apply collectListItems_In. exact Hin.
      * intros item cs d r Hin. apply Hrec. apply collectListItems_In. exact Hin.
    + apply (IH _ _ _ (forallb_skipn _ _ _ _ Hc) Em).
  - simpl in Hc. apply andb_prop in Hc. destruct Hc as [Hb Hr].
    destruct (String.eqb (type block) "table").
    + destruct (convertBlocks_fuel fuel rest indent) as [more|] eqn:Em; [|discriminate].
      injection H as <-. apply Forall_app. split.
      * apply formatTable_clean, Hi.
      * exact (IH _ _ _ Hr Em).
    + destruct (convertBlock_with _ block indent) as [ls|] eqn:Eb; [|discriminate].
      destruct (convertBlocks_fuel fuel rest indent) as [more|] eqn:Em; [|discriminate].
      injection H as <-. apply Forall_app. split.
      * apply (convertBlock_with_clean (convertBlocks_fuel fuel) block indent ls Hb);
          [|exact Eb].
        intros cs d r. apply Hrec. left. reflexivity.
      * exact (IH _ _ _ Hr Em).
Qed.

Lemma convertBlocks_clean (blocks : list Block) (indent : nat) :
  forallb blockClean blocks = true ->
  Forall oneLine (convertBlocks blocks indent).
Proof.
  intros Hc.
  apply (convertBlocks_fuel_clean (blocks_fuel blocks) blocks indent _ Hc).
  apply convertBlocks_fuel_enough. unfold blocks_fuel. lia.
Qed.

End OneLineSequences.

(** X12.  One emitted line is one line of output: when the fields that
    the converter prints without escaping (the type of a block, a code
    language, a callout emoji, a file name, the URLs and the linked page
    ids) hold no line feed anywhere in the forest, no line emitted by
    [convertBlocks] holds a line feed, whatever the texts, captions, titles,
    expressions and table cells contain. *)
Theorem block_lines_are_single_lines (blocks : list Block) (indent : nat) :
  forallb blockClean blocks = true ->
  Forall oneLine (convertBlocks blocks indent).
Proof. apply convertBlocks_clean. Qed.

Lemma block_lines_are_single_lines_witness :
  Forall oneLine
    (convertBlocks
       [textBlock "quote" ("first" ++ LF ++ "second")
          (Some [textBlock "bulleted_list_item" ("a" ++ LF ++ "b") None;
                 textBlock "bulleted_list_item" "c" None])] 0).
Proof.
  apply block_lines_are_single_lines. reflexivity.
Defined.

(** ** Property lines and the shape of the document *)

Section Document.

Lemma formatPropertyValue_clean (value : JsValue) :
  (forall n, value = VNumber n -> includes_newline (number_text n) = false) ->
  includes_newline (formatPropertyValue value) = false.
Proof.
  intros Hn. destruct value as [| |b|n|s|items]; unfold formatPropertyValue;
    try apply escapeValue_clean.
  - destruct b; reflexivity.
  - apply Hn. reflexivity.
  - destruct (Nat.eqb (length items) 0); [reflexivity|]. simpl includes_newline.
    rewrite includes_newline_app. rewrite join_clean; [reflexivity|reflexivity|].
    apply Forall_forall. intros line Hin. apply in_map_iff in Hin.
    destruct Hin as (v & <- & _). apply escapeValue_clean.
Qed.

Lemma split_newline_app_clean (line rest : string) :
  includes_newline line = false ->
  split_newline (line ++ String newline rest) = line :: split_newline rest.
Proof.
  induction line as [|c line IH]; simpl; intros H; [reflexivity|].
  destruct (Ascii.eqb c newline); [discriminate|].
  rewrite (IH H). reflexivity.
Qed.

(** Splitting the join of line-feed-free lines gives the lines back. *)
Lemma split_join_lines (lines : list string) :
  lines <> [] -> Forall oneLine lines -> split_newline (join LF lines) = lines.
Proof.
  intros Hne Hall. induction Hall as [|line lines Hl Hall IH]; [congruence|].
  destruct lines as [|l ls].
  - simpl. apply split_newline_no_newline. exact Hl.
  - rewrite join_cons by discriminate. unfold LF at 1.
    change (String newline "" ++ join LF (l :: ls)) with (String newline (join LF (l :: ls))).
    rewrite (split_newline_app_clean _ _ Hl). f_equal. apply IH. discriminate.
Qed.

Lemma convertProperties_clean (page : Page) :
  pageClean page -> Forall oneLine (convertProperties (properties page)).
Proof.
  intros (_ & _ & _ & Hprops). unfold convertProperties, entriesOf in *.
  destruct (properties page) as [entries|]; [|constructor].
  induction entries as [|[name prop] entries IH]; [constructor|].
  simpl flat_map. apply Forall_app. split.
  - destruct (Hprops name prop (or_introl eq_refl)) as [Hname Hnum].
    unfold propertyLine. destruct (String.eqb (prop_type prop) "title"); [constructor|].
    destruct (isBlankValue (extractPropertyValue prop)); [constructor|].
    cbv zeta. repeat constructor. unfold oneLine.
    rewrite includes_newline_app, Hname. simpl includes_newline.
    apply (formatPropertyValue_clean _ Hnum).
  - apply IH. intros n p Hin. apply Hprops. right. exact Hin.
Qed.

Lemma toonLines_clean (page : Page) (content : list string) :
  pageClean page -> Forall oneLine content -> Forall oneLine (toonLines page content).
Proof.
  intros Hpage Hcontent. pose proof (convertProperties_clean page Hpage) as Hprops.
  destruct Hpage as (Hid & Hcreated & Hedited & _).
  unfold toonLines. cbv zeta. repeat (apply Forall_app; split).
  - repeat constructor; unfold oneLine; rewrite includes_newline_app;
      [rewrite Hid|rewrite Hcreated|rewrite Hedited]; reflexivity.
  - destruct (extractTitle page) as [t|]; [|constructor].
    apply pushIf_clean. rewrite includes_newline_app, escapeValue_clean. reflexivity.
  - destruct (Nat.ltb 0 _); [|constructor]. constructor; [reflexivity|].
    apply Forall_oneLine_prefix; [reflexivity|exact Hprops].
  - destruct (Nat.ltb 0 _); [|constructor]. constructor; [reflexivity|].
    apply Forall_oneLine_prefix; [reflexivity|exact Hcontent].
Qed.

Lemma empty_paragraphs_emit_nothing (blocks : list Block) (indent : nat) :
  Forall (fun b => type b = "paragraph" /\ renderedText b = "") blocks ->
  convertBlocks blocks indent = [].
Proof.
  intros Hall. induction Hall as [|b rest [Hk Ht] _ IH]; [reflexivity|].
  rewrite convertBlocks_regular.
  - rewrite IH, (convertBlock_paragraph b indent Hk), Ht. reflexivity.
  - apply (kind_not_listItem b "paragraph" Hk).
    simpl. intros H. repeat (destruct H as [H|H]; [discriminate|]). exact H.
  - rewrite Hk. reflexivity.
Qed.

End Document.

(** X13.  A property value is always rendered on one line: the text
    [formatPropertyValue] returns holds no line feed, for strings (cut at
    their first line feed), booleans and sequences alike; the one thing
    printed as it comes is the decimal text of a number. *)
Theorem formatPropertyValue_single_line (value : JsValue) :
  (forall n, value = VNumber n -> includes_newline (number_text n) = false) ->
  includes_newline (formatPropertyValue value) = false.
Proof. apply formatPropertyValue_clean. Qed.

Lemma formatPropertyValue_single_line_witness :
  includes_newline
    (formatPropertyValue (VArray [VString ("a" ++ LF ++ "b"); VNull; VBoolean true]))
  = false.
Proof.
  apply formatPropertyValue_single_line. intros n H. discriminate.
Defined.

(** X14.  Which properties get a line.  The list-valued ones
    ([multi_select], [people], [files], [relation]) always do, even when
    their payload is missing or empty.  A checkbox and a number with a
    defined value always do, [false] and zero included.  A [select],
    [status], [date], [formula], [rollup] or [unique_id] without payload, a
    [select] whose option has an empty name, and a property of any other
    type never do. *)
Theorem properties_listed (name : string) :
  (forall payload, exists items,
      propertyLine (name, PMultiSelect payload)
      = [name ++ ": " ++ formatPropertyValue (VArray items)])
  /\ (forall payload, exists items,
         propertyLine (name, PPeople payload)
         = [name ++ ": " ++ formatPropertyValue (VArray items)])
  /\ (forall payload, exists items,
         propertyLine (name, PFiles payload)
         = [name ++ ": " ++ formatPropertyValue (VArray items)])
  /\ (forall payload, exists items,
         propertyLine (name, PRelation payload)
         = [name ++ ": " ++ formatPropertyValue (VArray items)])
  /\ (forall b, propertyLine (name, PCheckbox (JsDefined b))
                = [name ++ ": " ++ (if b then "true" else "false")])
  /\ (forall n, propertyLine (name, PNumber (JsDefined n)) = [name ++ ": " ++ number_text n])
  /\ propertyLine (name, PSelect None) = []
  /\ propertyLine (name, PSelect (Some {| option_name := JsDefined "" |})) = []
  /\ propertyLine (name, PStatus None) = []
  /\ propertyLine (name, PDate None) = []
  /\ propertyLine (name, PFormula None) = []
  /\ propertyLine (name, PRollup None) = []
  /\ propertyLine (name, PUniqueId None) = []
  /\ (forall kind, propertyLine (name, POther kind) = []).
Proof.
  repeat match goal with |- _ /\ _ => split end; try reflexivity.
  - intros [l|]; eexists; reflexivity.
  - intros [l|]; eexists; reflexivity.
  - intros [l|]; eexists; reflexivity.
  - intros [l|]; eexists; reflexivity.
  - intros kind. unfold propertyLine. simpl.
    destruct (String.eqb kind "title"); reflexivity.
Qed.

(** X15.  The text that [convertToToon] returns has exactly the lines the
    converter pushed, in order: cutting it at its line feeds gives them
    back, as soon as the fields printed without escaping (of the page and of
    the blocks) hold no line feed. *)
Theorem document_lines (page : Page) (blocks : list Block) :
  pageClean page ->
  forallb blockClean blocks = true ->
  split_newline (convertToToon page blocks) = toonLines page (convertBlocks blocks 0).
Proof.
  intros Hpage Hblocks. unfold convertToToon. apply split_join_lines.
  - unfold toonLines. discriminate.
  - apply toonLines_clean; [exact Hpage|]. apply convertBlocks_clean, Hblocks.
Qed.

Lemma document_lines_witness :
  split_newline
    (convertToToon emptyTagsPage [textBlock "paragraph" ("one" ++ LF ++ "two") None])
  = ["meta:"; "  id: 1f0c"; "  created: 2025-01-15T10:30:00.000Z";
     "  updated: 2025-01-16T08:00:00.000Z"; "  title: Plan";
     "properties:"; "  Tags: []"; "content:"; "  p: one..."].
Proof.
  rewrite document_lines.
  - reflexivity.
  - repeat split; try reflexivity;
      destruct H as [H|[H|[]]]; injection H as <- <-; try reflexivity;
      intros n Hn; discriminate.
  - reflexivity.
Defined.

(** X16.  The section [content:] is emitted exactly when the blocks give
    at least one line.  An empty block list gives none, and neither does a
    list of paragraphs without text: the document then ends after its
    properties. *)
Theorem content_section_iff (page : Page) (blocks : list Block) :
  (In "content:" (toonLines page (convertBlocks blocks 0)) <-> convertBlocks blocks 0 <> [])
  /\ convertBlocks [] 0 = []
  /\ (Forall (fun b => type b = "paragraph" /\ renderedText b = "") blocks ->
      convertBlocks blocks 0 = []).
Proof.
  split; [|split; [reflexivity|apply empty_paragraphs_emit_nothing]].
  unfold toonLines. cbv zeta. generalize (convertBlocks blocks 0). intros content.
  rewrite !in_app_iff. split.
  - intros [H|[H|[H|H]]].
    + simpl in H. repeat (destruct H as [H|H]; [discriminate|]). contradiction.
    + destruct (extractTitle page) as [t|]; [|contradiction].
      unfold pushIf in H. destruct (truthy t); [|contradiction].
      destruct H as [H|[]]. discriminate.
    + destruct (Nat.ltb 0 _); [|contradiction].
      destruct H as [H|H]; [discriminate|].
      apply in_map_iff in H. destruct H as (l & H & _). discriminate.
    + destruct content; [contradiction|discriminate].
  - intros Hne. right. right. right.
    destruct content as [|line more]; [congruence|]. left. reflexivity.
Qed.

Lemma content_section_iff_witness :
  convertBlocks [textBlock "paragraph" "" None; textBlock "paragraph" "" None] 0 = [].
Proof.
  destruct (content_section_iff emptyTagsPage
              [textBlock "paragraph" "" None; textBlock "paragraph" "" None])
    as (_ & _ & Hempty).
  apply Hempty. repeat constructor.
Defined.

(** ** The title beside the result (service-worker.js) *)

Section Titles.

Lemma orDefault_not_empty (field : option string) (fallback : string) :
  fallback <> "" -> orDefault field fallback <> "".
Proof.
  intros Hf. unfold orDefault. destruct field as [s|]; [|exact Hf].
  destruct s; [exact Hf|discriminate].
Qed.

Lemma findTitle_not_empty (entries : list (string * Property)) :
  ServiceWorker.findTitle entries <> "".
Proof.
  induction entries as [|[name prop] rest IH];
    cbn [ServiceWorker.findTitle findTitle]; [discriminate|].
  destruct (String.eqb (prop_type prop) "title"); [|exact IH].
  destruct (prop_title prop); [|exact IH].
  apply orDefault_not_empty. discriminate.
Qed.

Lemma findTitle_agree (entries : list (string * Property)) (t : string) :
  findTitle entries = Some t -> t <> "" -> ServiceWorker.findTitle entries = t.
Proof.
  induction entries as [|[name prop] rest IH];
    cbn [ServiceWorker.findTitle findTitle]; [discriminate|].
  destruct (String.eqb (prop_type prop) "title"); [|exact IH].
  intros H Hne. injection H as <-. unfold richTextToPlain in *.
  destruct (prop_title prop) as [fragments|]; [|congruence].
  unfold orDefault at 1.
  destruct (join "" (map (fun rt => orDefault (plain_text rt) "") fragments));
    [congruence|reflexivity].
Qed.

Lemma findTitle_none (entries : list (string * Property)) :
  (forall name prop, In (name, prop) entries -> prop_type prop <> "title") ->
  ServiceWorker.findTitle entries = "Untitled" /\ findTitle entries = None.
Proof.
  induction entries as [|[name prop] rest IH];
    cbn [ServiceWorker.findTitle findTitle]; intros H; [split; reflexivity|].
  destruct (String.eqb_spec (prop_type prop) "title") as [E|_].
  - exfalso. exact (H name prop (or_introl eq_refl) E).
  - apply IH. intros n p Hin. apply (H n p). right. exact Hin.
Qed.

End Titles.

(** X17.  The title the service worker shows and the title line of the
    document agree whenever the document has a title line: a non-empty
    title found by the converter is the title the service worker returns.
    The service worker never returns an empty title, and without any
    property of type [title] it returns ["Untitled"] while the document has
    no title line.  The two differ on a [title] property without payload
    that precedes one with text: the converter stops at the first and shows
    no title, the service worker goes on to the second. *)
Theorem page_titles_agree (page : Page) :
  ServiceWorker.extractTitle page <> ""
  /\ (forall t, extractTitle page = Some t -> t <> "" ->
                ServiceWorker.extractTitle page = t)
  /\ ((forall name prop, In (name, prop) (entriesOf page) -> prop_type prop <> "title") ->
      ServiceWorker.extractTitle page = "Untitled" /\ extractTitle page = None)
  /\ (forall n1 n2 fragments rest,
         properties page = Some ((n1, PTitle None) :: (n2, PTitle (Some fragments)) :: rest) ->
         richTextToPlain (Some fragments) <> "" ->
         extractTitle page = Some ""
         /\ ServiceWorker.extractTitle page = richTextToPlain (Some fragments)).
Proof.
  unfold ServiceWorker.extractTitle, extractTitle, entriesOf.
  split; [|split; [|split]].
  - destruct (properties page); [apply findTitle_not_empty|discriminate].
  - destruct (properties page); [apply findTitle_agree|discriminate].
  - destruct (properties page); [apply findTitle_none|]. intros _. split; reflexivity.
  - intros n1 n2 fragments rest -> Hne. split; [reflexivity|].
    cbn [ServiceWorker.findTitle prop_type prop_title String.eqb Ascii.eqb Bool.eqb].
    unfold richTextToPlain in *. unfold orDefault at 1.
    destruct (join "" _); [congruence|reflexivity].
Qed.

Lemma page_titles_agree_witness :
  ServiceWorker.extractTitle emptyTagsPage = "Plan".
Proof.
  destruct (page_titles_agree emptyTagsPage) as (_ & Hagree & _).
  apply Hagree; [reflexivity|discriminate].
Defined.

(** ** Page ids (page-parser) *)

Section PageIds.

Import PageParser.

Lemma lowerChar_idempotent (c : ascii) : lowerChar (lowerChar c) = lowerChar c.
Proof. destruct c as [[] [] [] [] [] [] [] []]; reflexivity. Qed.

Lemma isHexChar_lower (c : ascii) : isHexChar c = true -> isHexChar (lowerChar c) = true.
Proof. destruct c as [[] [] [] [] [] [] [] []]; intros H; try discriminate; reflexivity. Qed.

Lemma toLowerCase_idempotent (s : string) : toLowerCase (toLowerCase s) = toLowerCase s.
Proof.
  induction s as [|c s IH]; simpl; [reflexivity|].
  rewrite lowerChar_idempotent, IH. reflexivity.
Qed.

Lemma takeHex_lower (n : nat) :
  forall s rest, takeHex n s = Some rest ->
                 takeHex n (toLowerCase s) = Some (toLowerCase rest).
Proof.
  induction n as [|n IH]; intros s rest H; simpl in *.
  - injection H as <-. reflexivity.
  - destruct s as [|c s]; [discriminate|]. simpl.
    destruct (isHexChar c) eqn:Hc; [|discriminate].
    rewrite (isHexChar_lower c Hc). apply IH. exact H.
Qed.

Lemma takeHex_length (n : nat) :
  forall s rest, takeHex n s = Some rest -> String.length s = n + String.length rest.
Proof.
  induction n as [|n IH]; intros s rest H; simpl in *.
  - injection H as <-. reflexivity.
  - destruct s as [|c s]; [discriminate|].
    destruct (isHexChar c); [|discriminate]. simpl. rewrite (IH s rest H). reflexivity.
Qed.

Lemma matchGroups_lower (groups : list nat) :
  forall s, matchGroups groups s = true -> matchGroups groups (toLowerCase s) = true.
Proof.
  induction groups as [|n more IH]; intros s H.
  - simpl in *. apply String.eqb_eq in H. subst s. reflexivity.
  - destruct more as [|m more].
    + simpl in *. destruct (takeHex n s) as [rest|] eqn:E; [|discriminate].
      rewrite (takeHex_lower n s rest E).
      apply String.eqb_eq in H. subst rest. reflexivity.
    + change (matchGroups (n :: m :: more) s)
        with (match takeHex n s with
              | Some (String "-" rest) => matchGroups (m :: more) rest
              | _ => false
              end) in H.
      change (matchGroups (n :: m :: more) (toLowerCase s))
        with (match takeHex n (toLowerCase s) with
              | Some (String "-" rest) => matchGroups (m :: more) rest
              | _ => false
              end).
      destruct (takeHex n s) as [rest|] eqn:E; [|discriminate].
      rewrite (takeHex_lower n s rest E).
      destruct rest as [|c rest]; [discriminate|].
      destruct (Ascii.eqb_spec c "-") as [->|Hc].
      * simpl. apply IH. exact H.
      * exfalso. destruct c as [[] [] [] [] [] [] [] []];
          try discriminate; apply Hc; reflexivity.
Qed.

Lemma matchGroups_length (groups : list nat) :
  forall s, matchGroups groups s = true ->
            String.length s = list_sum groups + (length groups - 1).
Proof.
  induction groups as [|n more IH]; intros s H.
  - simpl in *. apply String.eqb_eq in H. subst s. reflexivity.
  - destruct more as [|m more].
    + simpl in *. destruct (takeHex n s) as [rest|] eqn:E; [|discriminate].
      apply String.eqb_eq in H. subst rest.
      rewrite (takeHex_length n s "" E). simpl. lia.
    + change (matchGroups (n :: m :: more) s)
        with (match takeHex n s with
              | Some (String "-" rest) => matchGroups (m :: more) rest
              | _ => false
              end) in H.
      destruct (takeHex n s) as [rest|] eqn:E; [|discriminate].
      destruct rest as [|c rest]; [discriminate|].
      rewrite (takeHex_length n s _ E).
      destruct c as [[] [] [] [] [] [] [] []]; try discriminate.
      cbn [String.length]. rewrite (IH rest H). simpl. lia.
Qed.

End PageIds.

Section CanonicalIds.

Import PageParser.

(** The dashed form of thirty-two hexadecimal digits matches the dashed
    pattern and is in lower case. *)
Lemma formatAsUuid_canonical (hex : string) :
  uuidWithoutDashes hex = true ->
  uuidWithDashes (formatAsUuid hex) = true
  /\ toLowerCase (formatAsUuid hex) = formatAsUuid hex.
Proof.
  unfold uuidWithoutDashes, matchGroups. intros H.
  do 32 (destruct hex as [|? hex]; [discriminate H|];
         cbn [takeHex] in H;
         match type of H with
         | context [isHexChar ?c] => destruct (isHexChar c) eqn:?; [|discriminate H]
         end).
  cbn [takeHex] in H. apply String.eqb_eq in H. subst hex.
  split.
  - unfold uuidWithDashes. cbn.
    repeat (rewrite isHexChar_lower by assumption; cbn). reflexivity.
  - cbn. rewrite !lowerChar_idempotent. reflexivity.
Qed.

Lemma lowered_canonical (id : string) :
  uuidWithDashes id = true ->
  uuidWithDashes (toLowerCase id) = true
  /\ toLowerCase (toLowerCase id) = toLowerCase id.
Proof.
  intros H. split; [apply matchGroups_lower, H|apply toLowerCase_idempotent].
Qed.

Lemma matchSuffix_matches (pattern : string -> bool) (width : nat) (s id : string) :
  matchSuffix pattern width s = Some id -> pattern id = true.
Proof.
  unfold matchSuffix. destruct (Nat.leb width (String.length s)); [|discriminate].
  cbv zeta. destruct (pattern _) eqn:E; [|discriminate].
  intros H. injection H as <-. exact E.
Qed.

Variable trim : string -> string.
Variable parseUrl : string -> option (string * string).

Lemma extractPageId_canonical (input id : string) :
  extractPageId trim parseUrl input = Some id ->
  uuidWithDashes id = true /\ toLowerCase id = id.
Proof.
  unfold extractPageId. destruct (negb (truthy input)); [discriminate|]. cbv zeta.
  destruct (uuidWithDashes (trim input)) eqn:Hd.
  { intros H. injection H as <-. apply lowered_canonical, Hd. }
  destruct (uuidWithoutDashes (trim input)) eqn:Hw.
  { intros H. injection H as <-. apply formatAsUuid_canonical, Hw. }
  destruct (parseUrl (trim input)) as [[hostname pathname]|].
  - destruct (negb (includesStr "notion.so" hostname)
              && negb (includesStr "notion.site" hostname)); [discriminate|].
    destruct (rev _) as [|lastSegment others]; [discriminate|].
    destruct (matchSuffix uuidWithoutDashes 32 _) as [id0|] eqn:E1.
    { intros H. injection H as <-.
      apply formatAsUuid_canonical, (matchSuffix_matches _ _ _ _ E1). }
    destruct (matchSuffix uuidWithDashes 36 _) as [id0|] eqn:E2.
    { intros H. injection H as <-.
      apply lowered_canonical, (matchSuffix_matches _ _ _ _ E2). }
    match goal with
    | |- (if ?c then _ else _) = _ -> _ => destruct c eqn:E3; [|discriminate]
    end.
    intros H. injection H as <-. apply formatAsUuid_canonical, E3.
  - destruct (matchSuffix uuidWithoutDashes 32 _) as [id0|] eqn:E1; [|discriminate].
    intros H. injection H as <-.
    apply formatAsUuid_canonical, (matchSuffix_matches _ _ _ _ E1).
Qed.

End CanonicalIds.

Section PageIdTheorems.

Import PageParser.

Lemma hex_lower_not_dash (c : ascii) :
  isHexChar c = true -> Ascii.eqb (lowerChar c) "-" = false.
Proof. destruct c as [[] [] [] [] [] [] [] []]; intros H; try discriminate; reflexivity. Qed.

Lemma substring_full (s : string) : substring 0 (String.length s) s = s.
Proof. induction s as [|c s IH]; simpl; [reflexivity|]. rewrite IH. reflexivity. Qed.

Lemma withoutDashes_hex (c : ascii) (rest : string) :
  isHexChar c = true ->
  withoutDashes (String (lowerChar c) rest) = String (lowerChar c) (withoutDashes rest).
Proof. intros H. cbn [withoutDashes]. rewrite (hex_lower_not_dash c H). reflexivity. Qed.

Lemma withoutDashes_dash (rest : string) :
  withoutDashes (String "-" rest) = withoutDashes rest.
Proof. reflexivity. Qed.

Lemma formatAsUuid_digits (hex : string) :
  uuidWithoutDashes hex = true -> withoutDashes (formatAsUuid hex) = toLowerCase hex.
Proof.
  unfold uuidWithoutDashes, matchGroups. intros H.
  do 32 (destruct hex as [|? hex]; [discriminate H|];
         cbn [takeHex] in H;
         match type of H with
         | context [isHexChar ?c] => destruct (isHexChar c) eqn:?; [|discriminate H]
         end).
  cbn [takeHex] in H. apply String.eqb_eq in H. subst hex.
  unfold formatAsUuid, slice, sliceFrom.
  cbn [toLowerCase String.length Nat.sub substring append].
  repeat first [rewrite withoutDashes_dash | rewrite withoutDashes_hex by assumption].
  reflexivity.
Qed.

Lemma dashed_is_truthy (id : string) : uuidWithDashes id = true -> truthy id = true.
Proof. destruct id; [discriminate|reflexivity]. Qed.

End PageIdTheorems.

(** X18.  Whatever it is given, and whatever [trim] and the URL parser
    do, [extractPageId] returns either nothing or a canonical id:
    thirty-six characters, five groups of 8, 4, 4, 4 and 12 hexadecimal
    digits separated by dashes, all in lower case. *)
Theorem page_id_is_canonical (trim : string -> string)
        (parseUrl : string -> option (string * string)) (input id : string) :
  PageParser.extractPageId trim parseUrl input = Some id ->
  PageParser.uuidWithDashes id = true
  /\ PageParser.toLowerCase id = id
  /\ String.length id = 36.
Proof.
  intros H. destruct (extractPageId_canonical trim parseUrl input id H) as [Hd Hl].
  split; [exact Hd|split; [exact Hl|]].
  apply (matchGroups_length [8; 4; 4; 4; 12] id Hd).
Qed.

Lemma page_id_is_canonical_witness :
  PageParser.uuidWithDashes "01234567-89ab-cdef-0123-456789abcdef" = true
  /\ PageParser.toLowerCase "01234567-89ab-cdef-0123-456789abcdef"
     = "01234567-89ab-cdef-0123-456789abcdef"
  /\ String.length "01234567-89ab-cdef-0123-456789abcdef" = 36.
Proof.
  apply (page_id_is_canonical noTrim exampleParser exampleUrl). reflexivity.
Defined.

(** X19.  [extractPageId] is idempotent on its results: an id it returned,
    given back to it, is returned unchanged (for a [trim] that leaves that
    id alone, as it has no white space). *)
Theorem extractPageId_idempotent (trim : string -> string)
        (parseUrl : string -> option (string * string)) (input id : string) :
  PageParser.extractPageId trim parseUrl input = Some id ->
  trim id = id ->
  PageParser.extractPageId trim parseUrl id = Some id.
Proof.
  intros H Htrim. destruct (extractPageId_canonical trim parseUrl input id H) as [Hd Hl].
  unfold PageParser.extractPageId.
  rewrite (dashed_is_truthy id Hd). cbv zeta. simpl negb. cbv iota.
  rewrite Htrim, Hd, Hl. reflexivity.
Qed.

Lemma extractPageId_idempotent_witness :
  PageParser.extractPageId noTrim exampleParser "01234567-89ab-cdef-0123-456789abcdef"
  = Some "01234567-89ab-cdef-0123-456789abcdef".
Proof.
  apply (extractPageId_idempotent noTrim exampleParser exampleUrl); reflexivity.
Defined.

(** X20.  A bare id of thirty-two hexadecimal digits, in any letter case,
    is accepted and returned in dashed form, and the dashed form holds the
    same digits: taking its dashes out gives the input in lower case. *)
Theorem bare_id_keeps_its_digits (trim : string -> string)
        (parseUrl : string -> option (string * string)) (hex : string) :
  PageParser.uuidWithoutDashes hex = true ->
  trim hex = hex ->
  PageParser.extractPageId trim parseUrl hex = Some (PageParser.formatAsUuid hex)
  /\ withoutDashes (PageParser.formatAsUuid hex) = PageParser.toLowerCase hex.
Proof.
  intros Hw Htrim. split; [|apply formatAsUuid_digits, Hw].
  unfold PageParser.extractPageId.
  assert (Ht : truthy hex = true) by (destruct hex; [discriminate|reflexivity]).
  rewrite Ht. simpl negb. cbv iota zeta. rewrite Htrim.
  destruct (PageParser.uuidWithDashes hex) eqn:Hd.
  - pose proof (matchGroups_length [8; 4; 4; 4; 12] hex Hd) as L36.
    pose proof (matchGroups_length [32] hex Hw) as L32.
    simpl in L36, L32. lia.
  - rewrite Hw. reflexivity.
Qed.

Lemma bare_id_keeps_its_digits_witness :
  PageParser.extractPageId noTrim exampleParser "0123456789ABCDEF0123456789abcdef"
  = Some "01234567-89ab-cdef-0123-456789abcdef".
Proof.
  apply (bare_id_keeps_its_digits noTrim exampleParser "0123456789ABCDEF0123456789abcdef");
    reflexivity.
Defined.

(** X21.  The last test of the URL branch is dead: a segment that is
    thirty-two hexadecimal digits as a whole has already matched the
    pattern anchored at its end, so where that match failed the whole-string
    test fails too. *)
Theorem whole_match_is_suffix_match (segment : string) :
  PageParser.matchSuffix PageParser.uuidWithoutDashes 32 segment = None ->
  PageParser.uuidWithoutDashes segment = false.
Proof.
  intros Hnone. destruct (PageParser.uuidWithoutDashes segment) eqn:Hw; [|reflexivity].
  pose proof (matchGroups_length [32] segment Hw) as L. simpl in L.
  unfold PageParser.matchSuffix, PageParser.sliceFrom in Hnone.
  rewrite L in Hnone. simpl in Hnone.
  replace 32 with (String.length segment) in Hnone at 1 by exact L.
  rewrite substring_full, Hw in Hnone. discriminate.
Qed.

Lemma whole_match_is_suffix_match_witness :
  PageParser.uuidWithoutDashes "Road-Map" = false.
Proof.
  apply whole_match_is_suffix_match. reflexivity.
Defined.

(** X22.  The rule that skips empty values applies to a property as a
    whole, not to the items of a rollup array: every item of the array is
    printed, an unset one as the word [null], so the line has as many
    entries as the rollup has items.  A rollup whose array is empty is
    listed as [[]]; a rollup without array is not listed. *)
Theorem rollup_array_keeps_unset_items (name : string) (items : list Property) :
  (items <> [] ->
   propertyLine (name, PRollup (Some (RArray (Some items))))
   = [name ++ ": " ++ "["
      ++ join ", " (map (fun item => escapeValue (toText (extractPropertyValue item))) items)
      ++ "]"])
  /\ (forall item, extractPropertyValue item = VNull ->
                   escapeValue (toText (extractPropertyValue item)) = "null")
  /\ propertyLine (name, PRollup (Some (RArray (Some [])))) = [name ++ ": " ++ "[]"]
  /\ propertyLine (name, PRollup (Some (RArray None))) = [].
Proof.
  split; [|split; [|split; reflexivity]].
  - intros Hne. unfold propertyLine. cbn [prop_type String.eqb Ascii.eqb Bool.eqb].
    cbn [extractPropertyValue extractRollupCase chainRaw isBlankValue]. cbv zeta.
    unfold formatPropertyValue. rewrite length_map.
    destruct items as [|item rest]; [congruence|].
    cbn [length Nat.eqb]. rewrite map_map. reflexivity.
  - intros item ->. reflexivity.
Qed.

Lemma rollup_array_keeps_unset_items_witness :
  propertyLine ("Owners", PRollup (Some (RArray (Some [PSelect None;
                                                        PNumber (JsDefined {| number_text := "3" |})]))))
  = ["Owners: [null, 3]"].
Proof.
  destruct (rollup_array_keeps_unset_items "Owners"
              [PSelect None; PNumber (JsDefined {| number_text := "3" |})]) as [Hline _].
  rewrite Hline; [reflexivity|discriminate].
Defined.

(** X23.  The two exports of the page parser agree on addresses: when
    [extractPageId] finds an id in an input that is not a bare id and that
    the [URL] constructor accepts, [isNotionUrl] accepts the trimmed input.
    The converse does not hold: a Notion address without an id in its last
    segment gives no page id. *)
Theorem url_with_id_is_notion_url (trim : string -> string)
        (parseUrl : string -> option (string * string)) (input id : string) :
  parseUrl "" = None ->
  PageParser.uuidWithDashes (trim input) = false ->
  PageParser.uuidWithoutDashes (trim input) = false ->
  parseUrl (trim input) <> None ->
  PageParser.extractPageId trim parseUrl input = Some id ->
  PageParser.isNotionUrl parseUrl (trim input) = true.
Proof.
  intros Hempty Hd Hw. unfold PageParser.extractPageId, PageParser.isNotionUrl.
  destruct (negb (truthy input)); [discriminate|]. cbv zeta. rewrite Hd, Hw.
  destruct (trim input) as [|c rest]; [congruence|]. simpl truthy. simpl negb.
  cbv iota.
  destruct (parseUrl (String c rest)) as [[hostname pathname]|]; [|congruence].
  intros _.
  destruct (PageParser.includesStr "notion.so" hostname);
    destruct (PageParser.includesStr "notion.site" hostname); try reflexivity.
  discriminate.
Qed.

Lemma url_with_id_is_notion_url_witness :
  PageParser.isNotionUrl exampleParser (noTrim exampleUrl) = true.
Proof.
  apply (url_with_id_is_notion_url noTrim exampleParser exampleUrl
           "01234567-89ab-cdef-0123-456789abcdef");
    try reflexivity.
  discriminate.
Defined.
